(** * Sample transformation engine of the Stackdriver Prometheus sidecar

    A shallow embedding of [retrieval/transform.go]: the sample builder
    ([next]), the distribution builder ([buildDistribution]) and their pure
    helpers, followed by the properties of the engine.

    Conventions of the embedding.
    - Go [int64]/[int32]/[uint64] values are [Z]; every operation that can
      leave the range is written with its wrap-around ([wrap64], [wrap32]).
    - Go [float64] is [spec_float] at precision 53 and maximal exponent 1024
      (IEEE 754 binary64, one NaN), with the operations of [SpecFloat].
    - Go strings are [string] (a sequence of bytes); slices are lists, a
      cursor into a slice is the suffix of the list that starts there.
    - The series directory ([seriesGetter]) is an interface of the source:
      calls to it are the operations of a small free monad ([prog]) and an
      implementation is an instance of the class [seriesGetter].
    - [sort.Sort] and [strconv.ParseFloat] are library code: the engine
      takes them as parameters ([sortSwaps], the [Swap] calls that
      [sort.Sort] makes on a given input, and [ParseFloat]). *)

From Stdlib Require Import ZArith List String Ascii Bool Lia Permutation.
From Stdlib Require Import SpecFloat.
From stdpp Require Import base list.

Import ListNotations.
Local Open Scope string_scope.
Local Open Scope list_scope.
Local Open Scope Z_scope.

(* ------------------------------------------------------------------ *)
(** ** Go strings *)

Module GoString.

(** [s[lo:hi]] for [lo <= hi <= len(s)]. *)
Definition slice (s : string) (lo hi : nat) : string :=
  substring lo (hi - lo) s.

(** [strings.HasPrefix]: [len(s) >= len(prefix) && s[:len(prefix)] == prefix]. *)
Definition HasPrefix (s prefix : string) : bool :=
  (String.length prefix <=? String.length s)%nat
  && String.eqb (slice s 0 (String.length prefix)) prefix.

(** [strings.HasSuffix]: [len(s) >= len(suffix) && s[len(s)-len(suffix):] == suffix]. *)
Definition HasSuffix (s suffix : string) : bool :=
  (String.length suffix <=? String.length s)%nat
  && String.eqb
       (slice s (String.length s - String.length suffix) (String.length s))
       suffix.

End GoString.

(* ------------------------------------------------------------------ *)
(** ** Machine integers *)

Definition wrap64 (z : Z) : Z := (z + 2 ^ 63) mod 2 ^ 64 - 2 ^ 63.
Definition wrap32 (z : Z) : Z := (z + 2 ^ 31) mod 2 ^ 32 - 2 ^ 31.

Definition in_int64 (z : Z) : Prop := - 2 ^ 63 <= z < 2 ^ 63.

(** Go's [/] and [%] on integers truncate towards zero. *)
Definition int64_quo (a b : Z) : Z := wrap64 (Z.quot a b).
Definition int64_rem (a b : Z) : Z := Z.rem a b.
Definition int64_mul (a b : Z) : Z := wrap64 (a * b).
Definition int64_sub (a b : Z) : Z := wrap64 (a - b).

(* ------------------------------------------------------------------ *)
(** ** float64 *)

Definition float64 := spec_float.

Module F64.

Definition prec : Z := 53.
Definition emax : Z := 1024.

Definition zero : float64 := S754_zero false.
Definition add : float64 -> float64 -> float64 := SFadd prec emax.
Definition sub : float64 -> float64 -> float64 := SFsub prec emax.
Definition mul : float64 -> float64 -> float64 := SFmul prec emax.
Definition div : float64 -> float64 -> float64 := SFdiv prec emax.
Definition ltb : float64 -> float64 -> bool := SFltb.
Definition eqb : float64 -> float64 -> bool := SFeqb.
Definition leb : float64 -> float64 -> bool := SFleb.

(** The constant [2] of [(lower + upper) / 2]. *)
Definition two : float64 := S754_finite false 4503599627370496 (-51).

(** [math.IsNaN]. *)
Definition IsNaN (f : float64) : bool :=
  match f with S754_nan => true | _ => false end.

(** [math.IsInf(f, sign)]. *)
Definition IsInf (f : float64) (sign : Z) : bool :=
  match f with
  | S754_infinity false => 0 <=? sign
  | S754_infinity true => sign <=? 0
  | _ => false
  end.

(** The conversion [float64(n)] of an [int64]: round to nearest, ties to
    even. *)
Definition of_int64 (n : Z) : float64 := binary_normalize prec emax n 0 false.

(** The integer part of a finite value, truncated towards zero. *)
Definition trunc (f : float64) : option Z :=
  match f with
  | S754_zero _ => Some 0
  | S754_finite s m e =>
      let mag := if 0 <=? e then Z.pos m * 2 ^ e else Z.pos m / 2 ^ (- e) in
      Some (cond_Zopp s mag)
  | _ => None
  end.

(** The conversion [int64(f)]. The language leaves the result open when
    the value does not fit; amd64 yields the smallest [int64], which is
    what is modelled here. *)
Definition to_int64 (f : float64) : Z :=
  match trunc f with
  | Some z => if (- 2 ^ 63 <=? z) && (z <? 2 ^ 63) then z else - 2 ^ 63
  | None => - 2 ^ 63
  end.

(** [math.Round]: nearest integer, halfway cases away from zero. *)
Definition Round (f : float64) : float64 :=
  match f with
  | S754_finite s m e =>
      if 0 <=? e then f
      else
        let d := 2 ^ (- e) in
        let q := Z.pos m / d in
        let n := if d <=? 2 * (Z.pos m mod d) then q + 1 else q in
        binary_normalize prec emax (cond_Zopp s n) 0 s
  | _ => f
  end.

End F64.

(* ------------------------------------------------------------------ *)
(** ** Labels ([tsdb/labels]) *)

Record Label := mkLabel { Name : string; Value : string }.

Definition Labels := list Label.

(** [a[i] != b[j]] on labels compares both fields. *)
Definition Label_eqb (x y : Label) : bool :=
  String.eqb (Name x) (Name y) && String.eqb (Value x) (Value y).

(** [Labels.Get]: the value of the first label called [name], or [""]. *)
Fixpoint Labels_Get (ls : Labels) (name : string) : string :=
  match ls with
  | [] => ""
  | l :: ls' => if String.eqb (Name l) name then Value l else Labels_Get ls' name
  end.

(* ------------------------------------------------------------------ *)
(** ** Metric name suffixes *)

Definition metricSuffixBucket : string := "_bucket".
Definition metricSuffixSum : string := "_sum".
Definition metricSuffixCount : string := "_count".
Definition metricSuffixTotal : string := "_total".

Definition stripComplexMetricSuffix (name : string) : string * string * bool :=
  let cut (suffix : string) :=
    GoString.slice name 0 (String.length name - String.length suffix) in
  if GoString.HasSuffix name metricSuffixBucket then
    (cut metricSuffixBucket, metricSuffixBucket, true)
  else if GoString.HasSuffix name metricSuffixCount then
    (cut metricSuffixCount, metricSuffixCount, true)
  else if GoString.HasSuffix name metricSuffixSum then
    (cut metricSuffixSum, metricSuffixSum, true)
  else if GoString.HasSuffix name metricSuffixTotal then
    (cut metricSuffixTotal, metricSuffixTotal, true)
  else (name, "", false).

Definition maxLabelCount : Z := 10.
Definition metricsPrefix : string := "external.googleapis.com/prometheus".

Definition getMetricType (prefix promName : string) : string :=
  if String.eqb prefix "" then (metricsPrefix ++ "/" ++ promName)%string
  else (prefix ++ "/" ++ promName)%string.

(* ------------------------------------------------------------------ *)
(** ** Timestamps *)

Record Timestamp := mkTimestamp { Seconds : Z; Nanos : Z }.

(** [time.Millisecond] as an [int64] number of nanoseconds. *)
Definition time_Millisecond : Z := 1000000.

(** [getTimestamp] converts a millisecond timestamp into a protobuf
    timestamp. *)
Definition getTimestamp (t : Z) : Timestamp :=
  {| Seconds := int64_quo t 1000;
     Nanos := wrap32 (int64_mul (int64_rem t 1000) time_Millisecond) |}.

(* ------------------------------------------------------------------ *)
(** ** The label comparator *)

(** The labels both loops step over. *)
Definition skippedLabel (l : Label) : bool :=
  String.eqb (Name l) "le" || String.eqb (Name l) "__name__".

(** The first loop of [histogramLabelsEqual], on the suffixes [a[i:]] and
    [b[j:]]. [None] is the early [return false]; otherwise the suffixes at
    which the loop condition [i < len(a) && j < len(b)] fails. *)
Fixpoint labelsMainLoop (a b : Labels) {struct a} : option (Labels * Labels) :=
  match a with
  | [] => Some (a, b)
  | x :: a' =>
      if skippedLabel x then labelsMainLoop a' b
      else
        (fix scanB (b0 : Labels) {struct b0} : option (Labels * Labels) :=
           match b0 with
           | [] => Some (a, b0)
           | y :: b' =>
               if skippedLabel y then scanB b'
               else if negb (Label_eqb x y) then None
               else labelsMainLoop a' b'
           end) b
  end.

(** The two trailing loops: step over [le] and [__name__], stop at the
    first other label. *)
Fixpoint labelsDrain (a : Labels) : Labels :=
  match a with
  | [] => []
  | x :: a' => if skippedLabel x then labelsDrain a' else a
  end.

Definition atEnd (a : Labels) : bool :=
  match a with [] => true | _ => false end.

(** [histogramLabelsEqual] checks whether two label sets for a histogram
    series are equal aside from their [le] and [__name__] labels. *)
Definition histogramLabelsEqual (a b : Labels) : bool :=
  match labelsMainLoop a b with
  | None => false
  | Some (ra, rb) => atEnd (labelsDrain ra) && atEnd (labelsDrain rb)
  end.

(* ------------------------------------------------------------------ *)
(** ** Samples, series entries and the emitted protobuf values *)

(** [tsdb.RefSample]. *)
Record RefSample := mkSample { Ref : Z; T : Z; V : float64 }.

(** [textparse.MetricType] is a string type; the five constants the engine
    dispatches on, and every other value. *)
Inductive MetricType :=
| MetricTypeCounter
| MetricTypeGauge
| MetricTypeHistogram
| MetricTypeSummary
| MetricTypeUnknown
| MetricTypeOther (name : string).

(** [metric_pb.MetricDescriptor_ValueType]. *)
Inductive ValueType :=
| VALUE_TYPE_UNSPECIFIED | BOOL | INT64 | DOUBLE | STRING | DISTRIBUTION | MONEY.

Inductive MetricKind :=
| METRIC_KIND_UNSPECIFIED | GAUGE | DELTA | CUMULATIVE.

Record Distribution := mkDistribution {
  Count : Z;
  Mean : float64;
  SumOfSquaredDeviation : float64;
  Bounds : list float64;          (* BucketOptions.ExplicitBuckets.Bounds *)
  BucketCounts : list Z
}.

Inductive TypedValue :=
| DoubleValue (v : float64)
| Int64Value (v : Z)
| DistributionValue (d : Distribution).

Record TimeInterval := mkInterval {
  EndTime : option Timestamp;
  StartTime : option Timestamp
}.

Record Point := mkPoint {
  Interval : TimeInterval;
  PointValue : option TypedValue
}.

(** [monitoring_pb.TimeSeries]: the descriptor fields of the template and
    the points. *)
Record TimeSeries := mkTimeSeries {
  SeriesMetricType : string;
  SeriesMetricLabels : list (string * string);
  SeriesResourceType : string;
  SeriesResourceLabels : list (string * string);
  SeriesMetricKind : MetricKind;
  SeriesValueType : ValueType;
  Points : list Point
}.

Record MetricMetadata := mkMetadata {
  Metric : string;
  metricType : MetricType;
  valueType : ValueType
}.

(** The entry of the series cache, with the fields the engine reads. A
    tracker is identified by a number. *)
Record seriesCacheEntry := mkEntry {
  proto : TimeSeries;
  metadata : MetricMetadata;
  lset : Labels;
  suffix : string;
  hash : Z;
  exported : bool;
  tracker : option Z
}.

(** Go [error] values: those that come out of the series directory, and the
    two ways the engine makes one. *)
Inductive error :=
| SeriesError (descr : string)
| Wrap (err : error) (message : string)
| Errorf (format : string) (arg : string).

Definition buildTypedValue (vt : ValueType) (v : float64) : TypedValue :=
  match vt with
  | INT64 => Int64Value (F64.to_int64 (F64.Round v))
  | _ => DoubleValue v
  end.

(* ------------------------------------------------------------------ *)
(** ** The series directory and the monad of engine programs *)

(** What [seriesGetter.get] returns: [(nil, false, err)], [(nil, false, nil)]
    or [(entry, true, nil)]. *)
Inductive getResult :=
| GetError (err : error)
| GetMiss
| GetHit (entry : seriesCacheEntry).

(** Engine programs: a result, a run-time panic, or a call into the
    directory (or into the tracker of an entry) followed by the rest of the
    program. The context argument of the source is only passed on and is
    left out. *)
Inductive prog (A : Type) : Type :=
| Ret (a : A)
| Panic
| SeriesGet (ref : Z) (k : getResult -> prog A)
| SeriesGetResetAdjusted (ref t : Z) (v : float64)
    (k : Z * float64 * bool -> prog A)
| SeriesUpdateSampleInterval (hash resetTimestamp t : Z) (k : bool -> prog A)
| TrackerNewPoint (tr : Z) (ls : Labels) (t : Z) (v : float64)
    (k : unit -> prog A).

Arguments Ret {A} a.
Arguments Panic {A}.
Arguments SeriesGet {A} ref k.
Arguments SeriesGetResetAdjusted {A} ref t v k.
Arguments SeriesUpdateSampleInterval {A} hash resetTimestamp t k.
Arguments TrackerNewPoint {A} tr ls t v k.

Fixpoint bind {A B : Type} (p : prog A) (f : A -> prog B) : prog B :=
  match p with
  | Ret a => f a
  | Panic => Panic
  | SeriesGet ref k => SeriesGet ref (fun r => bind (k r) f)
  | SeriesGetResetAdjusted ref t v k =>
      SeriesGetResetAdjusted ref t v (fun r => bind (k r) f)
  | SeriesUpdateSampleInterval h rt t k =>
      SeriesUpdateSampleInterval h rt t (fun r => bind (k r) f)
  | TrackerNewPoint tr ls t v k =>
      TrackerNewPoint tr ls t v (fun r => bind (k r) f)
  end.

Notation "x <- p ;; q" := (bind p (fun x => q))
  (at level 100, p at next level, right associativity).

Definition series_get (ref : Z) : prog getResult := SeriesGet ref Ret.
Definition series_getResetAdjusted (ref t : Z) (v : float64)
  : prog (Z * float64 * bool) := SeriesGetResetAdjusted ref t v Ret.
Definition series_updateSampleInterval (h rt t : Z) : prog bool :=
  SeriesUpdateSampleInterval h rt t Ret.
Definition tracker_newPoint (tr : Z) (ls : Labels) (t : Z) (v : float64)
  : prog unit := TrackerNewPoint tr ls t v Ret.

(** The interface [seriesGetter], over the state [D] of an implementation;
    [newPoint] is the method of the trackers that its entries carry. *)
Class seriesGetter (D : Type) := {
  get : Z -> D -> getResult * D;
  getResetAdjusted : Z -> Z -> float64 -> D -> (Z * float64 * bool) * D;
  updateSampleInterval : Z -> Z -> Z -> D -> bool * D;
  newPoint : Z -> Labels -> Z -> float64 -> D -> D
}.

(** Running a program against an implementation; [None] is a panic. *)
Fixpoint run {D : Type} `{seriesGetter D} {A : Type} (p : prog A) (d : D)
  : option A * D :=
  match p with
  | Ret a => (Some a, d)
  | Panic => (None, d)
  | SeriesGet ref k => let (r, d') := get ref d in run (k r) d'
  | SeriesGetResetAdjusted ref t v k =>
      let (r, d') := getResetAdjusted ref t v d in run (k r) d'
  | SeriesUpdateSampleInterval h rt t k =>
      let (r, d') := updateSampleInterval h rt t d in run (k r) d'
  | TrackerNewPoint tr ls t v k => run (k tt) (newPoint tr ls t v d)
  end.

(** The calls a run makes, in order. *)
Inductive call :=
| CallGet (ref : Z)
| CallGetResetAdjusted (ref t : Z) (v : float64)
| CallUpdateSampleInterval (hash resetTimestamp t : Z)
| CallNewPoint (tr : Z) (ls : Labels) (t : Z) (v : float64).

Fixpoint calls {D : Type} `{seriesGetter D} {A : Type} (p : prog A) (d : D)
  : list call :=
  match p with
  | Ret _ | Panic => []
  | SeriesGet ref k => let (r, d') := get ref d in CallGet ref :: calls (k r) d'
  | SeriesGetResetAdjusted ref t v k =>
      let (r, d') := getResetAdjusted ref t v d in
      CallGetResetAdjusted ref t v :: calls (k r) d'
  | SeriesUpdateSampleInterval h rt t k =>
      let (r, d') := updateSampleInterval h rt t d in
      CallUpdateSampleInterval h rt t :: calls (k r) d'
  | TrackerNewPoint tr ls t v k =>
      CallNewPoint tr ls t v :: calls (k tt) (newPoint tr ls t v d)
  end.

(* ------------------------------------------------------------------ *)
(** ** Sorting ([sort.Interface], [sort.Sort]) *)

Class Interface (X : Type) := {
  Len : X -> nat;
  Less : X -> nat -> nat -> bool;
  Swap : X -> nat -> nat -> X
}.

Section Sort.
Context {X : Type} `{Interface X}.

(** [sort.Sort] is library code, not code of the engine. It reaches the
    data through [Len], [Less] and [Swap] alone, so what it does to the
    data is the sequence of [Swap] calls it makes. Which calls it makes
    depends on the data and on the release of the library (pattern-defeating
    quicksort since Go 1.19, quicksort with a heapsort fallback before), and
    it promises no stability. It is therefore a parameter of the embedding:
    [swaps], the calls made on each input. *)
Definition applySwaps (swaps : list (nat * nat)) (data : X) : X :=
  fold_left (fun d ij => Swap d (fst ij) (snd ij)) swaps data.

Definition Sort (swaps : X -> list (nat * nat)) (data : X) : X :=
  applySwaps (swaps data) data.

(** The library's [insertionSort], to which [sort.Sort] hands a range of
    at most 12 elements at once (Go 1.19 and later; at most 6 elements
    before). The [Swap] calls of its inner loop
    [for j := i; j > a && data.Less(j, j-1); j-- { data.Swap(j, j-1) }]: *)
Fixpoint insertDownSwaps (data : X) (a j : nat) {struct j}
  : list (nat * nat) :=
  match j with
  | O => []
  | S j' =>
      if (a <? j)%nat && Less data j j'
      then (j, j') :: insertDownSwaps (Swap data j j') a j'
      else []
  end.

(** and of its outer loop [for i := a + 1; i < b; i++], with the number of
    iterations that remain. *)
Fixpoint insertFromSwaps (data : X) (a i remaining : nat) {struct remaining}
  : list (nat * nat) :=
  match remaining with
  | O => []
  | S r =>
      let inner := insertDownSwaps data a i in
      inner ++ insertFromSwaps (applySwaps inner data) a (S i) r
  end.

Definition insertionSortSwaps (data : X) (a b : nat) : list (nat * nat) :=
  insertFromSwaps data a (S a) (b - S a).

(** [sort.IsSorted]:
    [for i := n - 1; i > 0; i-- { if data.Less(i, i-1) { return false } }]. *)
Fixpoint isSortedDown (data : X) (i : nat) : bool :=
  match i with
  | O => true
  | S i' => if Less data i i' then false else isSortedDown data i'
  end.

Definition IsSorted (data : X) : bool := isSortedDown data (Len data - 1).
End Sort.

(** The scratch distribution: bucket upper bounds and the cumulative count
    at each bound, in parallel arrays. *)
Record distribution := mkDist { bounds : list float64; values : list Z }.

Definition distribution_Len (d : distribution) : nat := length (bounds d).

Definition distribution_Less (d : distribution) (i j : nat) : bool :=
  match bounds d !! i, bounds d !! j with
  | Some x, Some y => F64.ltb x y
  | _, _ => false
  end.

(** Both arrays are exchanged at the same two indices. (Indices outside an
    array make the source panic; [sort.Sort] passes indices below [Len]
    only.) *)
Definition distribution_Swap (d : distribution) (i j : nat) : distribution :=
  match bounds d !! i, bounds d !! j, values d !! i, values d !! j with
  | Some bi, Some bj, Some vi, Some vj =>
      {| bounds := <[j := bi]> (<[i := bj]> (bounds d));
         values := <[j := vi]> (<[i := vj]> (values d)) |}
  | _, _, _, _ => d
  end.

#[export] Instance distribution_Interface : Interface distribution := {
  Len := distribution_Len;
  Less := distribution_Less;
  Swap := distribution_Swap
}.

(** [sort.Sort] on scratch distributions: the [Swap] calls it makes on
    each. *)
Definition sorter := distribution -> list (nat * nat).

(* ------------------------------------------------------------------ *)
(** ** The distribution builder *)

(** The local variables of [buildDistribution] that its loop updates. *)
Record walkState := mkWalk {
  consumed : nat;
  count : float64;
  sum : float64;
  resetTimestamp : Z;
  lastTimestamp : Z;
  dist : distribution;
  skip : bool
}.

Definition walkInit : walkState :=
  {| consumed := 0; count := F64.zero; sum := F64.zero; resetTimestamp := 0;
     lastTimestamp := 0; dist := {| bounds := []; values := [] |};
     skip := false |}.

Definition consume (st : walkState) : walkState :=
  mkWalk (S (consumed st)) (count st) (sum st) (resetTimestamp st)
         (lastTimestamp st) (dist st) (skip st).
Definition setLastTimestamp (t : Z) (st : walkState) : walkState :=
  mkWalk (consumed st) (count st) (sum st) (resetTimestamp st) t (dist st)
         (skip st).
Definition setSum (v : float64) (st : walkState) : walkState :=
  mkWalk (consumed st) (count st) v (resetTimestamp st) (lastTimestamp st)
         (dist st) (skip st).
Definition setCount (v : float64) (rt : Z) (st : walkState) : walkState :=
  mkWalk (consumed st) v (sum st) rt (lastTimestamp st) (dist st) (skip st).
Definition appendBucket (upper : float64) (v : Z) (st : walkState) : walkState :=
  mkWalk (consumed st) (count st) (sum st) (resetTimestamp st)
         (lastTimestamp st)
         {| bounds := bounds (dist st) ++ [upper];
            values := values (dist st) ++ [v] |}
         (skip st).
Definition setSkip (st : walkState) : walkState :=
  mkWalk (consumed st) (count st) (sum st) (resetTimestamp st)
         (lastTimestamp st) (dist st) true.

(** How the loop ends: the early [return] on a lookup error, or its exit
    (by exhaustion or by [break]) with the variables as they are then. *)
Inductive walkEnd :=
| WalkError (err : error)
| WalkDone (st : walkState).

(** The variables of the second loop. *)
Record lowering := mkLowering {
  outBounds : list float64;
  outValues : list Z;
  dev : float64;
  lower : float64;
  prevVal : Z
}.

Section Engine.

(** [strconv.ParseFloat(s, 64)]: the value, or [None] for an error. *)
Variable ParseFloat : string -> option float64.

(** [sort.Sort] on the scratch distribution. *)
Variable sortSwaps : sorter.

(** The loop [for i, s := range samples] of [buildDistribution], at index
    [i] with [samples[i:]] still to visit. *)
Fixpoint walk (baseName : string) (matchLset : Labels) (i : nat)
    (st : walkState) (samples : list RefSample) {struct samples}
  : prog walkEnd :=
  match samples with
  | [] => Ret (WalkDone st)
  | s :: rest =>
      SeriesGet (Ref s) (fun r =>
        match r with
        | GetError err => Ret (WalkError err)
        | GetMiss => walk baseName matchLset (S i) (consume st) rest
        | GetHit e =>
            let name := Labels_Get (lset e) "__name__" in
            if negb (GoString.HasPrefix name baseName)
               || negb (histogramLabelsEqual (lset e) matchLset)
            then Ret (WalkDone st)
            else if (0 <? i)%nat && negb (T s =? lastTimestamp st)
            then Ret (WalkDone st)
            else
              let st := setLastTimestamp (T s) st in
              SeriesGetResetAdjusted (Ref s) (T s) (V s) (fun adjusted =>
                let '(rt, v, ok) := adjusted in
                let afterSwitch (st : walkState) :=
                  walk baseName matchLset (S i)
                    (consume (if negb ok then setSkip st else st)) rest in
                let nameSuffix :=
                  GoString.slice name (String.length baseName)
                                 (String.length name) in
                if String.eqb nameSuffix metricSuffixSum then
                  afterSwitch (setSum v st)
                else if String.eqb nameSuffix metricSuffixCount then
                  afterSwitch (setCount v rt st)
                else if String.eqb nameSuffix metricSuffixBucket then
                  match ParseFloat (Labels_Get (lset e) "le") with
                  | None => walk baseName matchLset (S i) (consume st) rest
                  | Some upper =>
                      afterSwitch (appendBucket upper (F64.to_int64 v) st)
                  end
                else Ret (WalkDone st))
        end)
  end.

(** One iteration of [for i, upper := range dist.bounds] on the bound
    [upper] and the cumulative count [dist.values[i]]. *)
Definition lowerBucket (mean upper : float64) (cumulative : Z) (l : lowering)
  : lowering :=
  let isInf := F64.IsInf upper 1 in
  let upper := if isInf then lower l else upper in
  let val := int64_sub cumulative (prevVal l) in
  let x := F64.div (F64.add (lower l) upper) F64.two in
  {| outBounds := if isInf then outBounds l else outBounds l ++ [upper];
     outValues := outValues l ++ [val];
     dev := F64.add (dev l)
              (F64.mul (F64.mul (F64.of_int64 val) (F64.sub x mean))
                       (F64.sub x mean));
     lower := upper;
     prevVal := cumulative |}.

(** The second loop; [None] is the panic of [dist.values[i]] out of
    range. The output slices share their arrays with [dist]; an element is
    overwritten only after the loop has read it, so the loop reads the
    sorted arrays. *)
Fixpoint lowerBuckets (mean : float64) (bs : list float64) (vs : list Z)
    (l : lowering) : option lowering :=
  match bs, vs with
  | [], _ => Some l
  | _ :: _, [] => None
  | upper :: bs', v :: vs' => lowerBuckets mean bs' vs' (lowerBucket mean upper v l)
  end.

Definition loweringInit : lowering :=
  {| outBounds := []; outValues := []; dev := F64.zero; lower := F64.zero;
     prevVal := 0 |}.

(** The mean of the distribution. *)
Definition meanOf (st : walkState) : float64 :=
  if F64.ltb F64.zero (count st) then F64.div (sum st) (count st)
  else F64.zero.

(** [buildDistribution] consumes series from the beginning of the input
    that belong to a histogram with the given metric name and label set.
    It returns the distribution, the reset timestamp, the rest of the
    input and the error. *)
Definition buildDistribution (baseName : string) (matchLset : Labels)
    (samples : list RefSample)
  : prog (option Distribution * Z * list RefSample * option error) :=
  w <- walk baseName matchLset 0 walkInit samples ;;
  match w with
  | WalkError err => Ret (None, 0, samples, Some err)
  | WalkDone st =>
      if skip st || (resetTimestamp st =? 0) then
        Ret (None, 0, drop (consumed st) samples, None)
      else
        let sorted := Sort sortSwaps (dist st) in
        let mean := meanOf st in
        match lowerBuckets mean (bounds sorted) (values sorted) loweringInit with
        | None => Panic
        | Some l =>
            let d :=
              {| Count := F64.to_int64 (count st);
                 Mean := mean;
                 SumOfSquaredDeviation := dev l;
                 Bounds := outBounds l;
                 BucketCounts := outValues l |} in
            Ret (Some d, resetTimestamp st, drop (consumed st) samples, None)
        end
  end.

(* ---------------------------------------------------------------- *)
(** ** The sample builder *)

(** The outcome of the dispatch on the metric type: an early [return], or
    the fields of the point with the reset timestamp and the remainder. *)
Inductive dispatched :=
| Returns (rest : list RefSample) (err : option error)
| Built (resetTimestamp : Z) (startTime : option Timestamp)
    (value : TypedValue) (tailSamples : list RefSample).

(** The three branches that reset-adjust one sample. *)
Definition adjusted (sample : RefSample) (tailSamples : list RefSample)
    (mk : float64 -> TypedValue) : prog dispatched :=
  r <- series_getResetAdjusted (Ref sample) (T sample) (V sample) ;;
  let '(resetTimestamp, v, ok) := r in
  if negb ok then Ret (Returns tailSamples None)
  else Ret (Built resetTimestamp (Some (getTimestamp resetTimestamp)) (mk v)
              tailSamples).

Definition dispatch (entry : seriesCacheEntry) (sample : RefSample)
    (samples tailSamples : list RefSample) : prog dispatched :=
  match metricType (metadata entry) with
  | MetricTypeCounter =>
      adjusted sample tailSamples
        (buildTypedValue (valueType (metadata entry)))
  | MetricTypeGauge | MetricTypeUnknown =>
      Ret (Built 0 None
             (buildTypedValue (valueType (metadata entry)) (V sample))
             tailSamples)
  | MetricTypeSummary =>
      if String.eqb (suffix entry) metricSuffixSum then
        adjusted sample tailSamples DoubleValue
      else if String.eqb (suffix entry) metricSuffixCount then
        adjusted sample tailSamples (fun v => Int64Value (F64.to_int64 v))
      else if String.eqb (suffix entry) "" then
        Ret (Built 0 None (DoubleValue (V sample)) tailSamples)
      else
        Ret (Returns tailSamples
               (Some (Errorf "unexpected metric name suffix %q" (suffix entry))))
  | MetricTypeHistogram =>
      r <- buildDistribution (Metric (metadata entry)) (lset entry) samples ;;
      let '(v, resetTimestamp, rest, err) := r in
      match v, err with
      | Some d, None =>
          Ret (Built resetTimestamp (Some (getTimestamp resetTimestamp))
                 (DistributionValue d) rest)
      | _, _ => Ret (Returns rest err)
      end
  | MetricTypeOther name =>
      Ret (Returns (drop 1 samples)
             (Some (Errorf "unexpected metric type %s" name)))
  end.

(** [next] extracts the next sample from the input sample list and returns
    the remainder of the input: the time series, the hash of the series,
    the remainder and the error. *)
Definition next (samples : list RefSample)
  : prog (option TimeSeries * Z * list RefSample * option error) :=
  match samples with
  | [] => Panic
  | sample :: tailSamples =>
      if F64.IsNaN (V sample) then Ret (None, 0, tailSamples, None)
      else
        r <- series_get (Ref sample) ;;
        match r with
        | GetError err =>
            Ret (None, 0, samples, Some (Wrap err "get series information"))
        | GetMiss => Ret (None, 0, tailSamples, None)
        | GetHit entry =>
            _ <- match tracker entry with
                 | Some tr =>
                     tracker_newPoint tr (lset entry) (T sample) (V sample)
                 | None => Ret tt
                 end ;;
            if negb (exported entry) then Ret (None, 0, tailSamples, None)
            else
              b <- dispatch entry sample samples tailSamples ;;
              match b with
              | Returns rest err => Ret (None, 0, rest, err)
              | Built resetTimestamp startTime value tailSamples =>
                  let point :=
                    {| Interval :=
                         {| EndTime := Some (getTimestamp (T sample));
                            StartTime := startTime |};
                       PointValue := Some value |} in
                  let ts :=
                    let p := proto entry in
                    mkTimeSeries (SeriesMetricType p) (SeriesMetricLabels p)
                      (SeriesResourceType p) (SeriesResourceLabels p)
                      (SeriesMetricKind p) (SeriesValueType p)
                      (Points p ++ [point]) in
                  ok <- series_updateSampleInterval (hash entry)
                          resetTimestamp (T sample) ;;
                  if negb ok then Ret (None, 0, tailSamples, None)
                  else Ret (Some ts, hash entry, tailSamples, None)
              end
        end
  end.

End Engine.

(* ------------------------------------------------------------------ *)
(** ** Notions used in the statements *)

(** A label set without its [le] and [__name__] labels. *)
Definition otherLabels (a : Labels) : Labels :=
  List.filter
    (fun l => negb (String.eqb (Name l) "le" || String.eqb (Name l) "__name__"))
    a.

(** The suffixes of the name classifier, in the order it tries them. *)
Definition complexSuffixes : list string :=
  [metricSuffixBucket; metricSuffixCount; metricSuffixSum; metricSuffixTotal].

(** The sum of a list of bucket counts. *)
Definition sumZ (l : list Z) : Z := fold_right Z.add 0 l.

(** The number of [+Inf] bounds in a list. *)
Definition countInf (bs : list float64) : nat :=
  length (List.filter (fun b => F64.IsInf b 1) bs).

(** The timestamps of the samples that a run passed to [getResetAdjusted],
    in order. In the loop of [buildDistribution] these are the samples of
    the histogram family that got past the checks of the loop. *)
Fixpoint adjustedAt (cs : list call) : list Z :=
  match cs with
  | [] => []
  | CallGetResetAdjusted _ t _ :: cs' => t :: adjustedAt cs'
  | _ :: cs' => adjustedAt cs'
  end.

(** The calls that read the directory: a lookup or a reset adjustment. *)
Definition isRead (c : call) : bool :=
  match c with
  | CallGet _ | CallGetResetAdjusted _ _ _ => true
  | _ => false
  end.

(** The series whose points are cumulative: counters, the [_sum] and
    [_count] series of summaries, and histograms. *)
Definition cumulativeSeries (e : seriesCacheEntry) : bool :=
  match metricType (metadata e) with
  | MetricTypeCounter | MetricTypeHistogram => true
  | MetricTypeSummary =>
      String.eqb (suffix e) metricSuffixSum
      || String.eqb (suffix e) metricSuffixCount
  | _ => false
  end.

(** The differences of consecutive cumulative counts, in [int64], starting
    from [prev]. *)
Fixpoint deltas (prev : Z) (vs : list Z) : list Z :=
  match vs with
  | [] => []
  | v :: vs' => int64_sub v prev :: deltas v vs'
  end.

(** A list of bounds without its [+Inf] entries. *)
Definition withoutInf (bs : list float64) : list float64 :=
  List.filter (fun b => negb (F64.IsInf b 1)) bs.

(** The pairs (bound, cumulative count) of a scratch distribution. *)
Definition pairsOf (d : distribution) : list (float64 * Z) :=
  combine (bounds d) (values d).

(** The scratch distribution of a list of pairs. *)
Definition ofPairs (z : list (float64 * Z)) : distribution :=
  {| bounds := map fst z; values := map snd z |}.

(** Bounds in ascending order: each bound is [<=] every bound after it. *)
Definition nonDecreasing (l : list float64) : Prop :=
  forall (i j : nat) (x y : float64),
    (i < j)%nat -> l !! i = Some x -> l !! j = Some y -> F64.leb x y = true.

(** A list of bounds none of which is NaN. *)
Definition noNaN (l : list float64) : Prop :=
  Forall (fun b => F64.IsNaN b = false) l.

(** What [sort.Interface] asks of [Less] for [sort.Sort] to order the
    data: a transitive ordering of the elements, where two elements
    neither of which is less than the other count as equal. *)
Definition transitiveOrdering {X : Type} `{Interface X} (data : X) : Prop :=
  forall i j k : nat,
    (i < Len data)%nat -> (j < Len data)%nat -> (k < Len data)%nat ->
    (Less data i j = true -> Less data j k = true -> Less data i k = true)
    /\ (Less data i j = false -> Less data j k = false ->
        Less data i k = false).

(** The place of a float other than NaN in the order of [<]: its sign
    class, then its exponent and its mantissa, both negated below zero. *)
Definition rank (f : float64) : Z * Z * Z :=
  match f with
  | S754_zero _ | S754_nan => (0, 0, 0)
  | S754_infinity false => (2, 0, 0)
  | S754_infinity true => (-2, 0, 0)
  | S754_finite false m e => (1, e, Z.pos m)
  | S754_finite true m e => (-1, - e, - Z.pos m)
  end.

(** The order of such places: by the first component, then the second,
    then the third. *)
Definition lexLt (p q : Z * Z * Z) : Prop :=
  let '(a, b, c) := p in
  let '(a', b', c') := q in
  a < a' \/ (a = a' /\ (b < b' \/ (b = b' /\ c < c'))).

(** What [sort.IsSorted] checks of a list of bounds: no bound is less
    than the one before it. *)
Fixpoint noDescent (l : list float64) : Prop :=
  match l with
  | [] => True
  | p :: l' =>
      match l' with
      | [] => True
      | q :: _ => F64.ltb q p = false /\ noDescent l'
      end
  end.

(** Lists sorted on a [float64] key, as a [sort.Interface]: the view of a
    scratch distribution as one array of pairs. *)
Section Keyed.
Context {E : Type} (key : E -> float64).

Definition swapAt (l : list E) (i j : nat) : list E :=
  match l !! i, l !! j with
  | Some x, Some y => <[j := x]> (<[i := y]> l)
  | _, _ => l
  end.

Definition lessAt (l : list E) (i j : nat) : bool :=
  match l !! i, l !! j with
  | Some x, Some y => F64.ltb (key x) (key y)
  | _, _ => false
  end.

Definition keyedInterface : Interface (list E) :=
  {| Len := length; Less := lessAt; Swap := swapAt |}.
End Keyed.

(* ------------------------------------------------------------------ *)
(** ** A series directory for examples

    A table of entries with fixed reset anchors and a fixed answer of the
    interval gate; its state counts the calls it has served. *)

Record seriesMap := mkSeriesMap {
  mapEntries : list (Z * seriesCacheEntry);
  mapFailing : list Z;            (* references whose lookup fails *)
  mapAnchors : list (Z * Z);      (* reference, reset timestamp *)
  mapGate : bool;
  mapCalls : nat
}.

Fixpoint assocZ {A : Type} (k : Z) (l : list (Z * A)) : option A :=
  match l with
  | [] => None
  | (k', a) :: l' => if k =? k' then Some a else assocZ k l'
  end.

Definition tick (m : seriesMap) : seriesMap :=
  mkSeriesMap (mapEntries m) (mapFailing m) (mapAnchors m) (mapGate m)
              (S (mapCalls m)).

#[export] Instance seriesMap_getter : seriesGetter seriesMap := {
  get ref m :=
    (if existsb (Z.eqb ref) (mapFailing m)
     then GetError (SeriesError "lookup failed")
     else match assocZ ref (mapEntries m) with
          | Some e => GetHit e
          | None => GetMiss
          end,
     tick m);
  getResetAdjusted ref t v m :=
    (match assocZ ref (mapAnchors m) with
     | Some rt => (rt, v, true)
     | None => (0, F64.zero, false)
     end,
     tick m);
  updateSampleInterval h rt t m := (mapGate m, tick m);
  newPoint tr ls t v m := tick m
}.

(** A parser for the [le] values of the examples. *)
Definition parseLe (s : string) : option float64 :=
  if String.eqb s "+Inf" then Some (S754_infinity false)
  else if String.eqb s "NaN" then Some S754_nan
  else if String.eqb s "1" then Some (F64.of_int64 1)
  else if String.eqb s "2" then Some (F64.of_int64 2)
  else None.

(** The sorter of the examples, which gather at most three buckets: on so
    short a range [sort.Sort] runs [insertionSort] and nothing else. *)
Definition shortSort : sorter :=
  fun d => insertionSortSwaps d 0 (Len d).

Definition emptyTemplate (metricName : string) (kind : MetricKind)
    (vt : ValueType) : TimeSeries :=
  {| SeriesMetricType := getMetricType "" metricName;
     SeriesMetricLabels := [];
     SeriesResourceType := "k8s_container";
     SeriesResourceLabels := [];
     SeriesMetricKind := kind;
     SeriesValueType := vt;
     Points := [] |}.

(** An exported entry for the series [name{labels}] of a metric [base] of
    type [mt]. *)
Definition entryOf (name base sfx : string) (mt : MetricType) (vt : ValueType)
    (labels : Labels) (h : Z) : seriesCacheEntry :=
  {| proto := emptyTemplate base
                (match mt with MetricTypeGauge | MetricTypeUnknown => GAUGE
                          | _ => CUMULATIVE end) vt;
     metadata := {| Metric := base; metricType := mt; valueType := vt |};
     lset := mkLabel "__name__" name :: labels;
     suffix := sfx;
     hash := h;
     exported := true;
     tracker := None |}.

(* ------------------------------------------------------------------ *)
(** ** Example streams *)

Module Examples.

Definition f64 (n : Z) : float64 := F64.of_int64 n.

(** A gauge [up] with reference 1. *)
Definition gaugeEntry : seriesCacheEntry :=
  entryOf "up" "up" "" MetricTypeGauge DOUBLE [] 11.
Definition gaugeDir : seriesMap :=
  mkSeriesMap [(1, gaugeEntry)] [] [] true 0.
Definition gaugeStream : list RefSample := [mkSample 1 1500 (f64 42)].

(** A stale marker. *)
Definition staleSample : RefSample := mkSample 1 1000 S754_nan.

(** A series named [foo], without any suffix, of a metric [foo] that the
    metadata declares a histogram. *)
Definition bareEntry : seriesCacheEntry :=
  entryOf "foo" "foo" "" MetricTypeHistogram DISTRIBUTION [] 7.
Definition bareDir (served : nat) : seriesMap :=
  mkSeriesMap [(1, bareEntry)] [] [(1, 500)] true served.
Definition bareStream : list RefSample := [mkSample 1 1000 (f64 1)].

(** A series [foo_total] whose metadata is found under the stripped name
    [foo], a histogram, and which has no reset anchor yet, followed by a
    gauge sample. *)
Definition totalEntry : seriesCacheEntry :=
  entryOf "foo_total" "foo" "_total" MetricTypeHistogram DISTRIBUTION [] 8.
Definition totalDir : seriesMap :=
  mkSeriesMap [(1, gaugeEntry); (2, totalEntry)] [] [] true 0.
Definition totalStream : list RefSample :=
  [mkSample 2 1000 (f64 3); mkSample 1 1000 (f64 42)].

(** The histogram [foo] with buckets [1], [2] and [+Inf]. *)
Definition histEntry (sfx : string) (labels : Labels) : seriesCacheEntry :=
  entryOf ("foo" ++ sfx) "foo" sfx MetricTypeHistogram DISTRIBUTION labels 7.
Definition histDir : seriesMap :=
  mkSeriesMap
    [(1, histEntry "_bucket" [mkLabel "le" "1"]);
     (2, histEntry "_bucket" [mkLabel "le" "2"]);
     (3, histEntry "_bucket" [mkLabel "le" "+Inf"]);
     (4, histEntry "_sum" []);
     (5, histEntry "_count" [])]
    [] [(1, 500); (2, 500); (3, 500); (4, 500); (5, 500)] true 0.
Definition histLset : Labels := [mkLabel "__name__" "foo_bucket"; mkLabel "le" "1"].

(** One scrape of the whole family, buckets out of order. *)
Definition histStream : list RefSample :=
  [mkSample 3 1000 (f64 7); mkSample 2 1000 (f64 5); mkSample 1 1000 (f64 2);
   mkSample 4 1000 (f64 9); mkSample 5 1000 (f64 7)].

(** A scrape with the count and sum series only. *)
Definition countOnlyStream : list RefSample :=
  [mkSample 5 1000 (f64 7); mkSample 4 1000 (f64 9)].

(** A scrape without the [+Inf] bucket, and with a count that disagrees
    with the largest bucket. *)
Definition noInfStream : list RefSample :=
  [mkSample 1 1000 (f64 2); mkSample 2 1000 (f64 5); mkSample 5 1000 (f64 7)].

(** The count series, then a sample of a series that is not in the
    directory and carries another timestamp, then the sum series. *)
Definition strayStream : list RefSample :=
  [mkSample 5 1000 (f64 7); mkSample 9 2000 (f64 1); mkSample 4 1000 (f64 9)].

(** The count series, then the sum series at a later timestamp. *)
Definition lateStream : list RefSample :=
  [mkSample 5 1000 (f64 7); mkSample 4 2000 (f64 9)].

(** A scrape of a histogram that has observed nothing yet. *)
Definition emptyStream : list RefSample :=
  [mkSample 3 1000 (f64 0); mkSample 4 1000 (f64 0); mkSample 5 1000 (f64 0)].

(** A scrape whose count series reports one half, with a sum of one, and
    the same with a sum that is NaN. *)
Definition half : float64 := S754_finite false 4503599627370496 (-53).
Definition halfStream : list RefSample :=
  [mkSample 5 1000 half; mkSample 4 1000 (f64 1)].
Definition halfNaNStream : list RefSample :=
  [mkSample 5 1000 half; mkSample 4 1000 S754_nan].

(** A histogram [bar] whose buckets carry the bounds [2], [NaN] and [1],
    and one scrape of them. *)
Definition nanEntry (le : string) : seriesCacheEntry :=
  entryOf "bar_bucket" "bar" "_bucket" MetricTypeHistogram DISTRIBUTION
    [mkLabel "le" le] 6.
Definition nanDir : seriesMap :=
  mkSeriesMap [(1, nanEntry "2"); (2, nanEntry "NaN"); (3, nanEntry "1")]
    [] [(1, 500); (2, 500); (3, 500)] true 0.
Definition nanLset : Labels :=
  [mkLabel "__name__" "bar_bucket"; mkLabel "le" "2"].
Definition nanStream : list RefSample :=
  [mkSample 1 1000 (f64 5); mkSample 2 1000 (f64 9); mkSample 3 1000 (f64 2)].
Definition nanScratch : distribution :=
  {| bounds := [f64 2; S754_nan; f64 1]; values := [5; 9; 2] |}.

(** A series [rpc_bucket] of a metric [rpc] that the metadata declares a
    summary, followed by a sample of a series that is not in the
    directory. *)
Definition summaryEntry : seriesCacheEntry :=
  entryOf "rpc_bucket" "rpc" "_bucket" MetricTypeSummary DOUBLE [] 9.
Definition summaryDir : seriesMap :=
  mkSeriesMap [(1, summaryEntry)] [] [] true 0.
Definition summaryStream : list RefSample :=
  [mkSample 1 1000 (f64 3); mkSample 2 1000 (f64 42)].

(** The caller's loop [for len(samples) > 0 { ..., samples, err = next(samples) }]
    for at most [n] rounds: the stream that is left. *)
Fixpoint rounds (n : nat) (samples : list RefSample) (d : seriesMap)
  : list RefSample :=
  match n, samples with
  | O, _ | _, [] => samples
  | S n', _ :: _ =>
      match run (next parseLe shortSort samples) d with
      | (Some (_, _, rest, _), d') => rounds n' rest d'
      | (None, _) => samples
      end
  end.

End Examples.

(* ================================================================== *)
(** * Properties *)

(* ------------------------------------------------------------------ *)
(** ** Strings *)

Lemma length_append (p s : string) :
  String.length (p ++ s) = (String.length p + String.length s)%nat.
Proof. induction p as [|c p IH]; simpl; [reflexivity | now rewrite IH]. Qed.

Lemma substring_zero_all (s : string) : substring 0 (String.length s) s = s.
Proof. induction s as [|c s IH]; simpl; [reflexivity | now rewrite IH]. Qed.

Lemma substring_zero_zero (s : string) : substring 0 0 s = "".
Proof. destruct s; reflexivity. Qed.

Lemma substring_app_prefix (p s : string) :
  substring 0 (String.length p) (p ++ s) = p.
Proof.
  induction p as [|c p IH]; simpl; [apply substring_zero_zero | now rewrite IH].
Qed.

Lemma substring_app_suffix (p s : string) :
  substring (String.length p) (String.length s) (p ++ s) = s.
Proof. induction p as [|c p IH]; simpl; [apply substring_zero_all | exact IH]. Qed.

Lemma substring_split (s : string) (n : nat) :
  (n <= String.length s)%nat ->
  s = (substring 0 n s ++ substring n (String.length s - n) s)%string.
Proof.
  revert n; induction s as [|c s IH]; intros [|n] Hn; simpl in *.
  - reflexivity.
  - lia.
  - now rewrite substring_zero_all.
  - f_equal. apply IH. lia.
Qed.

Lemma slice_to_end (s : string) (n : nat) :
  GoString.slice s n (String.length s) = substring n (String.length s - n) s.
Proof. reflexivity. Qed.

Lemma HasSuffix_app (p s : string) : GoString.HasSuffix (p ++ s) s = true.
Proof.
  unfold GoString.HasSuffix, GoString.slice.
  rewrite length_append. apply andb_true_intro; split.
  - apply Nat.leb_le; lia.
  - replace (String.length p + String.length s - String.length s)%nat
      with (String.length p) by lia.
    replace (String.length p + String.length s - String.length p)%nat
      with (String.length s) by lia.
    rewrite substring_app_suffix. apply String.eqb_refl.
Qed.

Lemma HasSuffix_split (name s : string) :
  GoString.HasSuffix name s = true ->
  name = (GoString.slice name 0 (String.length name - String.length s) ++ s)%string.
Proof.
  unfold GoString.HasSuffix, GoString.slice. intros H.
  apply andb_prop in H as [Hlen Heq].
  apply Nat.leb_le in Hlen. apply String.eqb_eq in Heq.
  rewrite Nat.sub_0_r.
  rewrite (substring_split name (String.length name - String.length s)) at 1
    by lia.
  now f_equal.
Qed.

Lemma HasSuffix_iff (name s : string) :
  GoString.HasSuffix name s = true <-> exists p, name = (p ++ s)%string.
Proof.
  split.
  - intros H. eexists. apply HasSuffix_split, H.
  - intros [p ->]. apply HasSuffix_app.
Qed.

Lemma HasPrefix_app (p s : string) : GoString.HasPrefix (p ++ s) p = true.
Proof.
  unfold GoString.HasPrefix, GoString.slice.
  rewrite length_append, Nat.sub_0_r, substring_app_prefix, String.eqb_refl.
  rewrite andb_true_r. apply Nat.leb_le; lia.
Qed.

Lemma append_assoc (a b c : string) : ((a ++ b) ++ c = a ++ (b ++ c))%string.
Proof. induction a as [|x a IH]; simpl; [reflexivity | now rewrite IH]. Qed.

Lemma append_inj_l (p q s : string) : (p ++ s = q ++ s)%string -> p = q.
Proof.
  revert q; induction p as [|c p IH]; intros [|c' q] H; simpl in *.
  - reflexivity.
  - apply (f_equal String.length) in H. simpl in H.
    rewrite length_append in H. lia.
  - apply (f_equal String.length) in H. simpl in H.
    rewrite length_append in H. lia.
  - injection H as -> H. f_equal. now apply IH.
Qed.

(** C7. The name classifier returns the first member of
    [_bucket, _count, _sum, _total] that is a suffix of the name, with the
    name cut before that suffix, and [(name, "", false)] when none is; a
    name that ends in [_count_bucket] is classified with suffix [_bucket]
    and keeps [_count] in its prefix. *)
Theorem stripComplexMetricSuffix_first_match (name : string) :
  match List.find (GoString.HasSuffix name) complexSuffixes with
  | Some sfx =>
      exists prefix,
        stripComplexMetricSuffix name = (prefix, sfx, true)
        /\ name = (prefix ++ sfx)%string
  | None => stripComplexMetricSuffix name = (name, "", false)
  end
  /\ (forall sfx, GoString.HasSuffix name sfx = true
                  <-> exists p, name = (p ++ sfx)%string)
  /\ (forall base,
        stripComplexMetricSuffix (base ++ "_count_bucket")
        = ((base ++ "_count")%string, "_bucket", true)).
Proof.
  split; [|split].
  - unfold stripComplexMetricSuffix, complexSuffixes. simpl.
    destruct (GoString.HasSuffix name metricSuffixBucket) eqn:Hb;
      [eexists; split; [reflexivity | exact (HasSuffix_split _ _ Hb)]|].
    destruct (GoString.HasSuffix name metricSuffixCount) eqn:Hc;
      [eexists; split; [reflexivity | exact (HasSuffix_split _ _ Hc)]|].
    destruct (GoString.HasSuffix name metricSuffixSum) eqn:Hs;
      [eexists; split; [reflexivity | exact (HasSuffix_split _ _ Hs)]|].
    destruct (GoString.HasSuffix name metricSuffixTotal) eqn:Ht;
      [eexists; split; [reflexivity | exact (HasSuffix_split _ _ Ht)]|].
    reflexivity.
  - intros sfx. apply HasSuffix_iff.
  - intros base. unfold stripComplexMetricSuffix.
    assert (E : (base ++ "_count_bucket" = (base ++ "_count") ++ "_bucket")%string)
      by (now rewrite append_assoc).
    rewrite E. unfold metricSuffixBucket at 1. rewrite HasSuffix_app.
    f_equal. f_equal.
    pose proof (HasSuffix_split _ _ (HasSuffix_app (base ++ "_count") "_bucket")) as S.
    symmetry. eapply append_inj_l. exact S.
Qed.

(* ------------------------------------------------------------------ *)
(** ** The label comparator *)

Lemma Label_eqb_eq (x y : Label) : Label_eqb x y = true <-> x = y.
Proof.
  destruct x as [n v], y as [n' v']; unfold Label_eqb; simpl.
  rewrite andb_true_iff, !String.eqb_eq. split.
  - now intros [-> ->].
  - intros E; injection E; auto.
Qed.

Lemma otherLabels_cons (x : Label) (a : Labels) :
  otherLabels (x :: a)
  = if skippedLabel x then otherLabels a else x :: otherLabels a.
Proof. unfold otherLabels, skippedLabel; simpl. now destruct (_ || _). Qed.

Lemma labelsMainLoop_skip_a (x : Label) (a b : Labels) :
  skippedLabel x = true -> labelsMainLoop (x :: a) b = labelsMainLoop a b.
Proof. intros E; simpl; now rewrite E. Qed.

Lemma labelsMainLoop_end_b (x : Label) (a : Labels) :
  skippedLabel x = false -> labelsMainLoop (x :: a) [] = Some (x :: a, []).
Proof. intros E; simpl; now rewrite E. Qed.

Lemma labelsMainLoop_step (x y : Label) (a b : Labels) :
  skippedLabel x = false ->
  labelsMainLoop (x :: a) (y :: b)
  = if skippedLabel y then labelsMainLoop (x :: a) b
    else if negb (Label_eqb x y) then None
    else labelsMainLoop a b.
Proof. intros E; simpl; now rewrite E. Qed.

(** What the first loop establishes: on [return false] the label sets
    differ; otherwise one cursor is at its end and the sets agree exactly
    when their unvisited parts do. *)
Lemma labelsMainLoop_spec (a b : Labels) :
  match labelsMainLoop a b with
  | None => otherLabels a <> otherLabels b
  | Some (ra, rb) =>
      (ra = [] \/ rb = [])
      /\ (otherLabels a = otherLabels b <-> otherLabels ra = otherLabels rb)
  end.
Proof.
  revert b; induction a as [|x a IHa]; intros b.
  - simpl. split; [now left | reflexivity].
  - destruct (skippedLabel x) eqn:Ex.
    + rewrite labelsMainLoop_skip_a by exact Ex.
      rewrite otherLabels_cons, Ex. apply IHa.
    + induction b as [|y b IHb].
      * rewrite labelsMainLoop_end_b by exact Ex. split; [now right | reflexivity].
      * rewrite labelsMainLoop_step by exact Ex.
        destruct (skippedLabel y) eqn:Ey.
        -- rewrite (otherLabels_cons y), Ey. exact IHb.
        -- rewrite !otherLabels_cons, Ex, Ey.
           destruct (Label_eqb x y) eqn:Exy; simpl.
           ++ apply Label_eqb_eq in Exy as ->.
              specialize (IHa b). destruct (labelsMainLoop a b) as [[ra rb]|].
              ** destruct IHa as [Hend Hiff]. split; [exact Hend|].
                 rewrite <- Hiff. split; [now intros [= ->] | now intros ->].
              ** intros [= E]. now apply IHa.
           ++ intros [= E _]. subst y.
              assert (Label_eqb x x = true) by now apply Label_eqb_eq.
              congruence.
Qed.

Lemma labelsDrain_spec (a : Labels) :
  atEnd (labelsDrain a) = true <-> otherLabels a = [].
Proof.
  induction a as [|x a IH].
  - split; reflexivity.
  - rewrite otherLabels_cons. simpl. destruct (skippedLabel x); [exact IH|].
    simpl. split; discriminate.
Qed.

(** C4. [histogramLabelsEqual a b] is true exactly when [a] and [b], each
    without its labels named [le] or [__name__], are the same sequence of
    (name, value) pairs: pairwise equal and of the same length. This holds
    for all label sets, sorted by name or not. *)
Theorem histogramLabelsEqual_iff (a b : Labels) :
  histogramLabelsEqual a b = true <-> otherLabels a = otherLabels b.
Proof.
  unfold histogramLabelsEqual.
  pose proof (labelsMainLoop_spec a b) as H.
  destruct (labelsMainLoop a b) as [[ra rb]|].
  - destruct H as [Hend Hiff]. rewrite Hiff, andb_true_iff, !labelsDrain_spec.
    destruct Hend as [-> | ->]; simpl; split.
    + now intros [_ ->].
    + intros E; split; [reflexivity | now symmetry].
    + now intros [-> _].
    + intros E; split; [exact E | reflexivity].
  - split; [discriminate | intros E; now apply H in E].
Qed.

(** The comparator in terms of the label sets without the two labels it
    steps over, for use in further proofs. *)
Lemma histogramLabelsEqual_otherLabels (a b : Labels) :
  histogramLabelsEqual a b = true <-> otherLabels a = otherLabels b.
Proof.
  unfold histogramLabelsEqual.
  pose proof (labelsMainLoop_spec a b) as H.
  destruct (labelsMainLoop a b) as [[ra rb]|];
    [|split; [discriminate | intros E; now apply H in E]].
  destruct H as [Hend Hiff]. rewrite Hiff, andb_true_iff, !labelsDrain_spec.
  destruct Hend as [-> | ->]; simpl; intuition congruence.
Qed.

Lemma histogramLabelsEqual_refl (a : Labels) : histogramLabelsEqual a a = true.
Proof. now apply histogramLabelsEqual_otherLabels. Qed.

(* ------------------------------------------------------------------ *)
(** ** Timestamps *)

Lemma wrap64_small (z : Z) : in_int64 z -> wrap64 z = z.
Proof.
  unfold in_int64, wrap64. intros H.
  rewrite Z.mod_small; lia.
Qed.

Lemma wrap32_small (z : Z) : - 2 ^ 31 <= z < 2 ^ 31 -> wrap32 z = z.
Proof. unfold wrap32. intros H. rewrite Z.mod_small; lia. Qed.

Lemma wrap64_range (z : Z) : in_int64 (wrap64 z).
Proof.
  unfold in_int64, wrap64.
  pose proof (Z.mod_pos_bound (z + 2 ^ 63) (2 ^ 64) ltac:(lia)). lia.
Qed.

Lemma getTimestamp_arith (t : Z) :
  in_int64 t ->
  getTimestamp t
  = {| Seconds := Z.quot t 1000; Nanos := Z.rem t 1000 * 1000000 |}.
Proof.
  intros Ht. unfold getTimestamp, int64_quo, int64_mul, int64_rem,
    time_Millisecond.
  assert (Hr : -1000 < Z.rem t 1000 < 1000).
  { pose proof (Z.rem_bound_abs t 1000 ltac:(lia)). lia. }
  assert (Hq : in_int64 (Z.quot t 1000)).
  { unfold in_int64 in *.
    pose proof (Z.quot_rem' t 1000). lia. }
  rewrite (wrap64_small _ Hq).
  rewrite (wrap64_small (Z.rem t 1000 * 1000000)) by (unfold in_int64; lia).
  rewrite wrap32_small by lia. reflexivity.
Qed.

(* ------------------------------------------------------------------ *)
(** ** Running programs *)

Section Running.
Context {D : Type} `{G : seriesGetter D}.

Lemma run_bind {A B : Type} (p : prog A) (f : A -> prog B) (d : D) :
  run (bind p f) d
  = match run p d with
    | (Some a, d') => run (f a) d'
    | (None, d') => (None, d')
    end.
Proof.
  revert d; induction p as [a| |ref k IH|ref t v k IH|h rt t k IH|tr ls t v k IH];
    intros d; simpl; try reflexivity.
  - destruct (get ref d) as [r d']. apply IH.
  - destruct (getResetAdjusted ref t v d) as [r d']. apply IH.
  - destruct (updateSampleInterval h rt t d) as [r d']. apply IH.
  - apply IH.
Qed.

Lemma calls_bind {A B : Type} (p : prog A) (f : A -> prog B) (d : D) :
  calls (bind p f) d
  = calls p d ++ match run p d with
                 | (Some a, d') => calls (f a) d'
                 | (None, _) => []
                 end.
Proof.
  revert d; induction p as [a| |ref k IH|ref t v k IH|h rt t k IH|tr ls t v k IH];
    intros d; simpl; try reflexivity.
  - destruct (get ref d) as [r d']. simpl. now rewrite IH.
  - destruct (getResetAdjusted ref t v d) as [r d']. simpl. now rewrite IH.
  - destruct (updateSampleInterval h rt t d) as [r d']. simpl. now rewrite IH.
  - now rewrite IH.
Qed.
End Running.

(* ------------------------------------------------------------------ *)
(** ** Stale markers *)

(** C9. When the value of the first sample is NaN, [next] is the program
    that returns [(nil, 0, stream[1:], nil)] at once: it contains no call
    to the directory or to a tracker. Hence, for every implementation of the
    directory and every state of it, the run returns that result, makes no
    call and leaves the state as it was. *)
Theorem next_NaN_calls_nothing (ParseFloat : string -> option float64)
    (sortSwaps : sorter)
    (sample : RefSample) (tailSamples : list RefSample) :
  F64.IsNaN (V sample) = true ->
  next ParseFloat sortSwaps (sample :: tailSamples)
  = Ret (None, 0, tailSamples, None)
  /\ forall (D : Type) (G : seriesGetter D) (d : D),
       run (next ParseFloat sortSwaps (sample :: tailSamples)) d
       = (Some (None, 0, tailSamples, None), d)
       /\ calls (next ParseFloat sortSwaps (sample :: tailSamples)) d = [].
Proof.
  intros HNaN.
  assert (E : next ParseFloat sortSwaps (sample :: tailSamples)
              = Ret (None, 0, tailSamples, None)).
  { unfold next. now rewrite HNaN. }
  split; [exact E|]. intros D G d. rewrite E. split; reflexivity.
Qed.

Lemma next_NaN_calls_nothing_witness :
  F64.IsNaN (V Examples.staleSample) = true
  /\ (next parseLe shortSort (Examples.staleSample :: Examples.gaugeStream)
      = Ret (None, 0, Examples.gaugeStream, None)
      /\ forall (D : Type) (G : seriesGetter D) (d : D),
           run (next parseLe shortSort
               (Examples.staleSample :: Examples.gaugeStream)) d
           = (Some (None, 0, Examples.gaugeStream, None), d)
           /\ calls (next parseLe shortSort
               (Examples.staleSample :: Examples.gaugeStream)) d
              = []).
Proof.
  split; [reflexivity|].
  apply (next_NaN_calls_nothing parseLe shortSort Examples.staleSample
      Examples.gaugeStream).
  reflexivity.
Defined.

(* ------------------------------------------------------------------ *)
(** ** The emitted point *)

(** The time series that [next] emits is the template of the entry with one
    point appended, and the end time of that point is the timestamp of the
    first sample. *)
Lemma next_emits_template_plus_point (ParseFloat : string -> option float64)
    (sortSwaps : sorter)
    {D : Type} `{G : seriesGetter D} (d d' : D)
    (sample : RefSample) (tailSamples : list RefSample)
    (ts : TimeSeries) (h : Z) (rest : list RefSample) (err : option error) :
  run (next ParseFloat sortSwaps (sample :: tailSamples)) d
  = (Some (Some ts, h, rest, err), d') ->
  exists entry d1 point,
    get (Ref sample) d = (GetHit entry, d1)
    /\ Points ts = Points (proto entry) ++ [point]
    /\ EndTime (Interval point) = Some (getTimestamp (T sample))
    /\ h = hash entry /\ err = None.
Proof.
  unfold next. destruct (F64.IsNaN (V sample)); [discriminate|].
  rewrite run_bind. unfold series_get at 1. simpl run at 1.
  destruct (get (Ref sample) d) as [r d1] eqn:Eget.
  destruct r as [e| |entry]; cbv iota beta; try (simpl; discriminate).
  rewrite run_bind.
  destruct (run _ d1) as [[[]|] d2]; [|discriminate].
  destruct (negb (exported entry)); [discriminate|].
  rewrite run_bind.
  destruct (run (dispatch _ _ _ _ _ _) d2) as [[b|] d3]; [|discriminate].
  destruct b as [rest0 err0|rt startTime value tl]; [discriminate|].
  rewrite run_bind. unfold series_updateSampleInterval. simpl run at 1.
  destruct (updateSampleInterval _ _ _ d3) as [ok d4].
  destruct ok; simpl; [|discriminate].
  intros [= <- <- <- <- <-].
  eexists entry, d1, _. repeat split; reflexivity.
Qed.

(** C5. A time series returned by [next] carries exactly one point, given
    that the template of the looked-up entry carries none, and the end time
    of that point is [getTimestamp] of the timestamp [t] of the consumed
    sample: seconds [t / 1000] and nanoseconds [(t % 1000) * 1000000], with
    the truncating division and remainder of Go, for every [int64] [t],
    negative ones included. *)
Theorem next_single_point_endTime (ParseFloat : string -> option float64)
    (sortSwaps : sorter)
    {D : Type} `{G : seriesGetter D} (d d' : D)
    (sample : RefSample) (tailSamples : list RefSample)
    (ts : TimeSeries) (h : Z) (rest : list RefSample) (err : option error) :
  in_int64 (T sample) ->
  (forall entry d1, get (Ref sample) d = (GetHit entry, d1) ->
                    Points (proto entry) = []) ->
  run (next ParseFloat sortSwaps (sample :: tailSamples)) d
  = (Some (Some ts, h, rest, err), d') ->
  exists point,
    Points ts = [point]
    /\ EndTime (Interval point)
       = Some {| Seconds := Z.quot (T sample) 1000;
                 Nanos := Z.rem (T sample) 1000 * 1000000 |}
    /\ getTimestamp (T sample)
       = {| Seconds := Z.quot (T sample) 1000;
            Nanos := Z.rem (T sample) 1000 * 1000000 |}.
Proof.
  intros Ht Htemplate Hrun.
  destruct (next_emits_template_plus_point _ _ _ _ _ _ _ _ _ _ Hrun)
    as (entry & d1 & point & Hget & Hpoints & Hend & _ & _).
  exists point. rewrite Hpoints, (Htemplate _ _ Hget), Hend.
  rewrite (getTimestamp_arith _ Ht). repeat split; reflexivity.
Qed.

Lemma next_single_point_endTime_witness :
  in_int64 1500
  /\ (forall entry d1,
        get 1 Examples.gaugeDir = (GetHit entry, d1) -> Points (proto entry) = [])
  /\ exists ts d',
       run (next parseLe shortSort Examples.gaugeStream) Examples.gaugeDir
       = (Some (Some ts, 11, [], None), d')
       /\ exists point,
            Points ts = [point]
            /\ EndTime (Interval point)
               = Some {| Seconds := 1; Nanos := 500000000 |}
            /\ getTimestamp 1500 = {| Seconds := 1; Nanos := 500000000 |}.
Proof.
  assert (Ht : in_int64 1500) by (unfold in_int64; lia).
  assert (Htemplate : forall entry d1,
             get 1 Examples.gaugeDir = (GetHit entry, d1) ->
             Points (proto entry) = []).
  { intros entry d1 E. vm_compute in E. injection E as <- _. reflexivity. }
  split; [exact Ht|]. split; [exact Htemplate|].
  eexists _, _. split; [vm_compute; reflexivity|].
  exact (next_single_point_endTime parseLe shortSort Examples.gaugeDir _
           (mkSample 1 1500 (Examples.f64 42)) [] _ 11 [] None Ht Htemplate
           eq_refl).
Defined.

(* ------------------------------------------------------------------ *)
(** ** The mean of a distribution *)

Lemma eqb_zero_not_positive (c : float64) :
  F64.eqb c F64.zero = true -> F64.ltb F64.zero c = false.
Proof.
  unfold F64.eqb, F64.ltb, F64.zero, SFeqb, SFltb.
  destruct c as [s|s| |s m e]; try destruct s; simpl; congruence.
Qed.

(** What [buildDistribution] emits, in terms of the variables at the end of
    its first loop. *)
Lemma buildDistribution_emits (ParseFloat : string -> option float64)
    (sortSwaps : sorter)
    {D : Type} `{G : seriesGetter D} (d d' : D)
    (baseName : string) (matchLset : Labels) (samples : list RefSample)
    (v : Distribution) (rt : Z) (rest : list RefSample) (err : option error) :
  run (buildDistribution ParseFloat sortSwaps baseName matchLset samples) d
  = (Some (Some v, rt, rest, err), d') ->
  exists st l,
    run (walk ParseFloat baseName matchLset 0 walkInit samples) d
    = (Some (WalkDone st), d')
    /\ skip st = false /\ resetTimestamp st <> 0
    /\ lowerBuckets (meanOf st) (bounds (Sort sortSwaps (dist st)))
         (values (Sort sortSwaps (dist st))) loweringInit = Some l
    /\ v = {| Count := F64.to_int64 (count st); Mean := meanOf st;
              SumOfSquaredDeviation := dev l; Bounds := outBounds l;
              BucketCounts := outValues l |}
    /\ rt = resetTimestamp st /\ rest = drop (consumed st) samples
    /\ err = None.
Proof.
  unfold buildDistribution. rewrite run_bind.
  destruct (run (walk _ _ _ _ _ _) d) as [[[e|st]|] d1]; try discriminate.
  destruct (skip st) eqn:Eskip; [discriminate|].
  destruct (resetTimestamp st =? 0) eqn:Ert; [discriminate|]. simpl.
  destruct (lowerBuckets _ _ _ _) as [l|] eqn:El; [|discriminate].
  intros [= <- <- <- <- <-]. exists st, l.
  apply Z.eqb_neq in Ert. repeat split; auto.
Qed.

(** C8 (amended). The mean of an emitted distribution is [sum / count]
    only under the guard [count > 0], on the float [count] that the loop
    has taken from the [_count] series; whenever the guard fails, in
    particular when that float is 0 (as for a histogram whose buckets are
    all empty), the mean is 0 and is not NaN. The count field is that float
    converted to [int64]: when the count field is 0, the mean is 0 unless
    the float count is a positive fraction, and then it is [sum / count]. *)
Theorem buildDistribution_mean_guard (ParseFloat : string -> option float64)
    (sortSwaps : sorter)
    {D : Type} `{G : seriesGetter D} (d d' : D)
    (baseName : string) (matchLset : Labels) (samples : list RefSample)
    (v : Distribution) (rt : Z) (rest : list RefSample) (err : option error) :
  run (buildDistribution ParseFloat sortSwaps baseName matchLset samples) d
  = (Some (Some v, rt, rest, err), d') ->
  exists st,
    run (walk ParseFloat baseName matchLset 0 walkInit samples) d
    = (Some (WalkDone st), d')
    /\ Count v = F64.to_int64 (count st)
    /\ Mean v = (if F64.ltb F64.zero (count st)
                 then F64.div (sum st) (count st) else F64.zero)
    /\ (F64.ltb F64.zero (count st) = false ->
        Mean v = F64.zero /\ F64.IsNaN (Mean v) = false)
    /\ (F64.eqb (count st) F64.zero = true ->
        Mean v = F64.zero /\ F64.IsNaN (Mean v) = false)
    /\ (Count v = 0 ->
        (Mean v = F64.zero /\ F64.IsNaN (Mean v) = false)
        \/ (F64.ltb F64.zero (count st) = true
            /\ F64.to_int64 (count st) = 0
            /\ Mean v = F64.div (sum st) (count st))).
Proof.
  intros Hrun.
  destruct (buildDistribution_emits _ _ _ _ _ _ _ _ _ _ _ Hrun)
    as (st & l & Hwalk & _ & _ & _ & -> & _).
  exists st. simpl. unfold meanOf.
  split; [exact Hwalk|]. split; [reflexivity|]. split; [reflexivity|].
  assert (Hguard : F64.ltb F64.zero (count st) = false ->
                   (if F64.ltb F64.zero (count st)
                    then F64.div (sum st) (count st) else F64.zero) = F64.zero
                   /\ F64.IsNaN (if F64.ltb F64.zero (count st)
                                 then F64.div (sum st) (count st)
                                 else F64.zero) = false).
  { intros ->. split; reflexivity. }
  split; [exact Hguard|].
  split; [intros Hzero; apply Hguard, eqb_zero_not_positive, Hzero|].
  intros Hcount. destruct (F64.ltb F64.zero (count st)) eqn:Epos.
  - right. repeat split. exact Hcount.
  - left. split; reflexivity.
Qed.

Lemma buildDistribution_mean_guard_witness :
  exists v d',
    run (buildDistribution parseLe shortSort "foo" Examples.histLset
           Examples.emptyStream)
        Examples.histDir
    = (Some (Some v, 500, [], None), d')
    /\ Count v = 0 /\ BucketCounts v = [0]
    /\ exists st,
         run (walk parseLe "foo" Examples.histLset 0 walkInit Examples.emptyStream)
             Examples.histDir
         = (Some (WalkDone st), d')
         /\ Count v = F64.to_int64 (count st)
         /\ Mean v = (if F64.ltb F64.zero (count st)
                      then F64.div (sum st) (count st) else F64.zero)
         /\ (F64.ltb F64.zero (count st) = false ->
             Mean v = F64.zero /\ F64.IsNaN (Mean v) = false)
         /\ (F64.eqb (count st) F64.zero = true ->
             Mean v = F64.zero /\ F64.IsNaN (Mean v) = false)
         /\ (Count v = 0 ->
             (Mean v = F64.zero /\ F64.IsNaN (Mean v) = false)
             \/ (F64.ltb F64.zero (count st) = true
                 /\ F64.to_int64 (count st) = 0
                 /\ Mean v = F64.div (sum st) (count st))).
Proof.
  eexists _, _.
  match goal with
  | |- ?A /\ _ => assert (Hrun : A) by (vm_compute; reflexivity)
  end.
  split; [exact Hrun|]. split; [reflexivity|]. split; [reflexivity|].
  exact (buildDistribution_mean_guard parseLe shortSort Examples.histDir _
           "foo" Examples.histLset Examples.emptyStream _ 500 [] None Hrun).
Defined.

(** C8, at an input on which the count field is 0 and the mean is not.
    The conversion of the count to [int64] truncates: a [_count] series
    that reports one half is emitted with the count field 0, while the
    guard [count > 0] holds of the float, so the mean is [sum / count]: 2
    for a sum of 1, and NaN for a sum that is NaN. *)
Lemma buildDistribution_fractional_count_counterexample :
  (exists v d',
     run (buildDistribution parseLe shortSort "foo" Examples.histLset
            Examples.halfStream)
         Examples.histDir
     = (Some (Some v, 500, [], None), d')
     /\ Count v = 0 /\ Mean v = Examples.f64 2 /\ Mean v <> F64.zero)
  /\ (exists v d',
        run (buildDistribution parseLe shortSort "foo" Examples.histLset
               Examples.halfNaNStream)
            Examples.histDir
        = (Some (Some v, 500, [], None), d')
        /\ Count v = 0 /\ F64.IsNaN (Mean v) = true).
Proof.
  split.
  - eexists _, _. split; [vm_compute; reflexivity|].
    split; [reflexivity|]. split; [vm_compute; reflexivity|].
    vm_compute. discriminate.
  - eexists _, _. split; [vm_compute; reflexivity|].
    split; reflexivity.
Qed.

(* ------------------------------------------------------------------ *)
(** ** Sorting the scratch distribution *)

Lemma lookup_map {A B : Type} (f : A -> B) (l : list A) (i : nat) :
  map f l !! i = option_map f (l !! i).
Proof. revert i; induction l as [|a l IH]; intros [|i]; simpl; auto. Qed.

Lemma insert_map {A B : Type} (f : A -> B) (l : list A) (i : nat) (x : A) :
  map f (<[i := x]> l) = <[i := f x]> (map f l).
Proof.
  revert i; induction l as [|a l IH]; intros [|i]; simpl; auto.
  now rewrite IH.
Qed.

Lemma ofPairs_pairsOf (d : distribution) :
  length (bounds d) = length (values d) -> ofPairs (pairsOf d) = d.
Proof.
  destruct d as [bs vs]. unfold ofPairs, pairsOf. simpl.
  revert vs; induction bs as [|b bs IH]; intros [|v vs] H; simpl in *;
    try discriminate; [reflexivity|].
  injection H as H. specialize (IH vs H). injection IH as -> ->. reflexivity.
Qed.

Lemma pairsOf_ofPairs (z : list (float64 * Z)) : pairsOf (ofPairs z) = z.
Proof.
  unfold pairsOf, ofPairs. simpl.
  induction z as [|[b v] z IH]; simpl; [reflexivity | now rewrite IH].
Qed.

Lemma ofPairs_lengths (z : list (float64 * Z)) :
  length (bounds (ofPairs z)) = length (values (ofPairs z)).
Proof. unfold ofPairs. simpl. now rewrite !length_map. Qed.

Lemma Less_ofPairs (z : list (float64 * Z)) (i j : nat) :
  Less (ofPairs z) i j = lessAt fst z i j.
Proof.
  simpl. unfold distribution_Less, lessAt, ofPairs. simpl.
  rewrite !lookup_map. destruct (z !! i), (z !! j); reflexivity.
Qed.

Lemma Swap_ofPairs (z : list (float64 * Z)) (i j : nat) :
  Swap (ofPairs z) i j = ofPairs (swapAt z i j).
Proof.
  simpl. unfold distribution_Swap, swapAt, ofPairs. simpl.
  rewrite !lookup_map. destruct (z !! i) as [x|], (z !! j) as [y|]; simpl;
    try reflexivity.
  now rewrite !insert_map.
Qed.

(** Exchanging two elements of a list permutes it. *)
Lemma insert_perm_head {A : Type} (l : list A) :
  forall (j : nat) (x y : A),
    l !! j = Some y -> Permutation (x :: l) (y :: <[j := x]> l).
Proof.
  induction l as [|a l IH]; intros [|j] x y H; try discriminate.
  - injection H as ->. apply perm_swap.
  - simpl. rewrite (perm_swap a x l), (IH j x y H). apply perm_swap.
Qed.

Lemma swapAt_perm {A : Type} (l : list A) :
  forall i j : nat, Permutation l (swapAt l i j).
Proof.
  unfold swapAt. induction l as [|a l IH]; intros i j; [now destruct i|].
  destruct i as [|i], j as [|j]; simpl.
  - reflexivity.
  - destruct (l !! j) as [y|] eqn:Ey; [|reflexivity].
    simpl. now apply insert_perm_head.
  - destruct (l !! i) as [x|] eqn:Ex; [|reflexivity].
    simpl. now apply insert_perm_head.
  - specialize (IH i j).
    destruct (l !! i) as [x|], (l !! j) as [y|]; simpl; try reflexivity.
    now apply perm_skip.
Qed.

(** Whatever indices [Swap] is called with, the pairs stay the same
    multiset and the arrays stay parallel. *)
Lemma distribution_Swap_pairs (d : distribution) (i j : nat) :
  length (bounds d) = length (values d) ->
  Permutation (pairsOf d) (pairsOf (Swap d i j))
  /\ length (bounds (Swap d i j)) = length (values (Swap d i j)).
Proof.
  intros Hlen. rewrite <- (ofPairs_pairsOf d Hlen), Swap_ofPairs.
  rewrite !pairsOf_ofPairs. split; [apply swapAt_perm | apply ofPairs_lengths].
Qed.

(** So does every sequence of [Swap] calls, *)
Lemma applySwaps_pairs (swaps : list (nat * nat)) :
  forall d : distribution,
    length (bounds d) = length (values d) ->
    Permutation (pairsOf d) (pairsOf (applySwaps swaps d))
    /\ length (bounds (applySwaps swaps d))
       = length (values (applySwaps swaps d)).
Proof.
  induction swaps as [|[i j] swaps IH]; intros d Hlen.
  - split; [reflexivity | exact Hlen].
  - destruct (distribution_Swap_pairs d i j Hlen) as [Hperm Hlen'].
    destruct (IH _ Hlen') as [Hperm' Hlen''].
    split; [exact (Permutation_trans Hperm Hperm') | exact Hlen''].
Qed.

(** and hence [sort.Sort], whichever calls it makes. *)
Lemma Sort_distribution_pairs (sortSwaps : sorter) (d : distribution) :
  length (bounds d) = length (values d) ->
  Permutation (pairsOf d) (pairsOf (Sort sortSwaps d))
  /\ length (bounds (Sort sortSwaps d)) = length (values (Sort sortSwaps d)).
Proof. apply applySwaps_pairs. Qed.

Lemma applySwaps_ofPairs (swaps : list (nat * nat)) :
  forall z : list (float64 * Z),
    applySwaps swaps (ofPairs z)
    = ofPairs (@applySwaps _ (keyedInterface fst) swaps z).
Proof.
  induction swaps as [|[i j] swaps IH]; intros z; [reflexivity|].
  simpl. rewrite Swap_ofPairs. apply IH.
Qed.

(** *** The order of [<] on floats *)

Lemma ltb_rank (x y : float64) :
  F64.IsNaN x = false -> F64.IsNaN y = false ->
  F64.ltb x y = true <-> lexLt (rank x) (rank y).
Proof.
  unfold F64.ltb, SFltb, lexLt.
  destruct x as [sx|sx| |sx mx ex], y as [sy|sy| |sy my ey]; simpl;
    try discriminate; intros _ _;
    try destruct sx; try destruct sy; simpl;
    try (split; [discriminate | lia]);
    try (split; [lia | reflexivity]).
  all: change (Pos.compare_cont Eq mx my) with (Pos.compare mx my).
  all: destruct (Z.compare_spec ex ey); destruct (Pos.compare_spec mx my);
    simpl; split; intros; try discriminate; try reflexivity; lia.
Qed.

Lemma leb_rank (x y : float64) :
  F64.IsNaN x = false -> F64.IsNaN y = false ->
  F64.leb x y = true <-> ~ lexLt (rank y) (rank x).
Proof.
  unfold F64.leb, SFleb, lexLt.
  destruct x as [sx|sx| |sx mx ex], y as [sy|sy| |sy my ey]; simpl;
    try discriminate; intros _ _;
    try destruct sx; try destruct sy; simpl;
    try (split; [discriminate | lia]);
    try (split; [lia | reflexivity]).
  all: change (Pos.compare_cont Eq mx my) with (Pos.compare mx my).
  all: destruct (Z.compare_spec ex ey); destruct (Pos.compare_spec mx my);
    simpl; split; intros; try discriminate; try reflexivity; lia.
Qed.

Lemma lexLt_trans (p q r : Z * Z * Z) : lexLt p q -> lexLt q r -> lexLt p r.
Proof.
  destruct p as [[a b] c], q as [[a' b'] c'], r as [[a'' b''] c''].
  unfold lexLt. lia.
Qed.

Lemma lexLt_neg_trans (p q r : Z * Z * Z) :
  ~ lexLt p q -> ~ lexLt q r -> ~ lexLt p r.
Proof.
  destruct p as [[a b] c], q as [[a' b'] c'], r as [[a'' b''] c''].
  unfold lexLt. lia.
Qed.

Lemma ltb_false_leb (x y : float64) :
  F64.IsNaN x = false -> F64.IsNaN y = false ->
  F64.ltb y x = false -> F64.leb x y = true.
Proof.
  intros Hx Hy Hlt. apply (leb_rank x y Hx Hy). intros Hr.
  apply (ltb_rank y x Hy Hx) in Hr. congruence.
Qed.

Lemma leb_trans (x y z : float64) :
  F64.IsNaN x = false -> F64.IsNaN y = false -> F64.IsNaN z = false ->
  F64.leb x y = true -> F64.leb y z = true -> F64.leb x z = true.
Proof.
  intros Hx Hy Hz Hxy Hyz.
  apply (leb_rank x y Hx Hy) in Hxy. apply (leb_rank y z Hy Hz) in Hyz.
  apply (leb_rank x z Hx Hz). exact (lexLt_neg_trans _ _ _ Hyz Hxy).
Qed.

(** Without a NaN bound, [Less] is the transitive ordering that
    [sort.Sort] asks for. *)
Lemma noNaN_transitiveOrdering (d : distribution) :
  noNaN (bounds d) -> transitiveOrdering d.
Proof.
  intros Hn i j k Hi Hj Hk. simpl in *.
  unfold distribution_Len in Hi, Hj, Hk. unfold distribution_Less.
  destruct (lookup_lt_is_Some_2 _ _ Hi) as [x Ex].
  destruct (lookup_lt_is_Some_2 _ _ Hj) as [y Ey].
  destruct (lookup_lt_is_Some_2 _ _ Hk) as [z Ez].
  rewrite Ex, Ey, Ez.
  assert (Hx : F64.IsNaN x = false)
    by exact (proj1 (Forall_lookup _ _) Hn _ _ Ex).
  assert (Hy : F64.IsNaN y = false)
    by exact (proj1 (Forall_lookup _ _) Hn _ _ Ey).
  assert (Hz : F64.IsNaN z = false)
    by exact (proj1 (Forall_lookup _ _) Hn _ _ Ez).
  split; intros H1 H2.
  - apply (ltb_rank x y Hx Hy) in H1. apply (ltb_rank y z Hy Hz) in H2.
    apply (ltb_rank x z Hx Hz). exact (lexLt_trans _ _ _ H1 H2).
  - destruct (F64.ltb x z) eqn:E; [|reflexivity].
    apply (ltb_rank x z Hx Hz) in E. exfalso.
    refine (lexLt_neg_trans _ _ _ _ _ E).
    + intros Hr. apply (ltb_rank x y Hx Hy) in Hr. congruence.
    + intros Hr. apply (ltb_rank y z Hy Hz) in Hr. congruence.
Qed.

(** What [sort.IsSorted] has checked when it returns true. *)
Lemma isSortedDown_adjacent (d : distribution) (n : nat) :
  isSortedDown d n = true ->
  forall i : nat, (i < n)%nat -> Less d (S i) i = false.
Proof.
  induction n as [|n IH]; intros Hs i Hi; [lia|].
  cbn [isSortedDown] in Hs.
  destruct (Less d (S n) n) eqn:E; [discriminate|].
  destruct (Nat.eq_dec i n) as [->|Hne]; [exact E|].
  apply IH; [exact Hs | lia].
Qed.

(** Without a NaN bound, bounds that [sort.IsSorted] accepts are in
    ascending order. *)
Lemma IsSorted_nonDecreasing (d : distribution) :
  noNaN (bounds d) -> IsSorted d = true -> nonDecreasing (bounds d).
Proof.
  intros Hn Hs.
  assert (Hnan : forall i x, bounds d !! i = Some x -> F64.IsNaN x = false)
    by exact (proj1 (Forall_lookup _ _) Hn).
  assert (Hadj : forall i x y,
             bounds d !! i = Some x -> bounds d !! S i = Some y ->
             F64.leb x y = true).
  { intros i x y Ex Ey.
    apply ltb_false_leb; [exact (Hnan _ _ Ex) | exact (Hnan _ _ Ey)|].
    assert (Hi : (i < Len d - 1)%nat).
    { apply lookup_lt_Some in Ey. simpl. unfold distribution_Len. lia. }
    pose proof (isSortedDown_adjacent d _ Hs i Hi) as Hless.
    simpl in Hless. unfold distribution_Less in Hless.
    now rewrite Ey, Ex in Hless. }
  intros i j. induction j as [|j IH]; intros x y Hij Ex Ey; [lia|].
  destruct (Nat.eq_dec i j) as [->|Hne]; [exact (Hadj _ _ _ Ex Ey)|].
  assert (Hj : (j < length (bounds d))%nat)
    by (apply lookup_lt_Some in Ey; lia).
  destruct (lookup_lt_is_Some_2 _ _ Hj) as [z Ez].
  apply (leb_trans x z y);
    [exact (Hnan _ _ Ex) | exact (Hnan _ _ Ez) | exact (Hnan _ _ Ey) | |].
  - apply IH; [lia | exact Ex | exact Ez].
  - exact (Hadj _ _ _ Ez Ey).
Qed.

Lemma bounds_as_pairs (d : distribution) :
  length (bounds d) = length (values d) -> bounds d = map fst (pairsOf d).
Proof.
  intros Hlen. rewrite <- (ofPairs_pairsOf d Hlen) at 1. reflexivity.
Qed.

Lemma Sort_noNaN (sortSwaps : sorter) (d : distribution) :
  length (bounds d) = length (values d) ->
  noNaN (bounds d) -> noNaN (bounds (Sort sortSwaps d)).
Proof.
  intros Hlen Hn. destruct (Sort_distribution_pairs sortSwaps d Hlen)
    as [Hperm Hlen'].
  unfold noNaN in *. rewrite (bounds_as_pairs _ Hlen').
  rewrite (bounds_as_pairs _ Hlen) in Hn.
  eapply Permutation_Forall; [|exact Hn].
  apply Permutation_map, Hperm.
Qed.

(** *** The library's insertion sort *)

Section SwapScripts.
Context {X : Type} `{Interface X}.

Lemma applySwaps_app (s1 s2 : list (nat * nat)) (data : X) :
  applySwaps (s1 ++ s2) data = applySwaps s2 (applySwaps s1 data).
Proof. apply fold_left_app. Qed.

Lemma insertDown_step (data : X) (a j : nat) :
  applySwaps (insertDownSwaps data a (S j)) data
  = if (a <? S j)%nat && Less data (S j) j
    then applySwaps (insertDownSwaps (Swap data (S j) j) a j)
           (Swap data (S j) j)
    else data.
Proof.
  cbn [insertDownSwaps].
  destruct ((a <? S j)%nat && Less data (S j) j); reflexivity.
Qed.

Lemma insertFrom_step (data : X) (a i r : nat) :
  applySwaps (insertFromSwaps data a i (S r)) data
  = applySwaps
      (insertFromSwaps (applySwaps (insertDownSwaps data a i) data) a (S i) r)
      (applySwaps (insertDownSwaps data a i) data).
Proof. cbn [insertFromSwaps]. apply applySwaps_app. Qed.
End SwapScripts.

Lemma ltb_asym (x y : float64) : F64.ltb x y = true -> F64.ltb y x = false.
Proof.
  unfold F64.ltb, SFltb.
  destruct x as [sx|sx| |sx mx ex], y as [sy|sy| |sy my ey]; simpl;
    try destruct sx; try destruct sy; simpl; try congruence.
  all: rewrite (Z.compare_antisym ex ey);
    assert (Em : Pos.compare_cont Eq my mx
                 = CompOpp (Pos.compare_cont Eq mx my))
      by (symmetry; apply (Pos.compare_cont_antisym mx my Eq));
    rewrite Em;
    destruct (ex ?= ey); simpl; try congruence;
    destruct (Pos.compare_cont Eq mx my); simpl; congruence.
Qed.

Lemma noDescent_tail (p : float64) (l : list float64) :
  noDescent (p :: l) -> noDescent l.
Proof. destruct l; simpl; tauto. Qed.

Lemma noDescent_app_l (a b : list float64) : noDescent (a ++ b) -> noDescent a.
Proof.
  induction a as [|p a IH]; [easy|]. destruct a as [|q a]; [easy|].
  simpl. intros [H1 H2]. split; [exact H1 | apply IH, H2].
Qed.

Lemma noDescent_app_r (a b : list float64) : noDescent (a ++ b) -> noDescent b.
Proof.
  induction a as [|p a IH]; [easy|]. intros H. apply IH.
  simpl in H. now apply noDescent_tail in H.
Qed.

Lemma noDescent_join (a : list float64) (p : float64) (b : list float64) :
  noDescent (a ++ [p]) -> noDescent (p :: b) -> noDescent (a ++ p :: b).
Proof.
  induction a as [|q a IH]; [easy|]. intros Ha Hb.
  destruct a as [|r a].
  - simpl in *. split; [apply Ha | exact Hb].
  - simpl in Ha |- *. destruct Ha as [H1 H2]. split; [exact H1|].
    apply IH; assumption.
Qed.

Lemma noDescent_lookup (l : list float64) (i : nat) (x y : float64) :
  noDescent l -> l !! i = Some x -> l !! S i = Some y -> F64.ltb y x = false.
Proof.
  revert i; induction l as [|p l IH]; intros i Hl Hx Hy; [discriminate|].
  destruct i as [|i].
  - destruct l as [|q l]; [discriminate|].
    simpl in *. injection Hx as <-. injection Hy as <-. apply Hl.
  - apply (IH i); [now apply noDescent_tail in Hl | exact Hx | exact Hy].
Qed.

Section KeyedSort.
Context {E : Type} (key : E -> float64).

Local Abbreviation sortDown l a j :=
  (@applySwaps (list E) (keyedInterface key)
     (@insertDownSwaps (list E) (keyedInterface key) l a j) l).
Local Abbreviation sortFrom l a i r :=
  (@applySwaps (list E) (keyedInterface key)
     (@insertFromSwaps (list E) (keyedInterface key) l a i r) l).

Lemma swapAt_adjacent (a : list E) (p x : E) (b : list E) :
  swapAt (a ++ p :: x :: b) (S (length a)) (length a) = a ++ x :: p :: b.
Proof.
  unfold swapAt.
  replace ((a ++ p :: x :: b) !! S (length a)) with (Some x)
    by (induction a; simpl; auto).
  replace ((a ++ p :: x :: b) !! length a) with (Some p)
    by (induction a; simpl; auto).
  induction a as [|c a IH]; simpl; [reflexivity | now rewrite IH].
Qed.

Lemma lessAt_adjacent (a : list E) (p x : E) (b : list E) :
  lessAt key (a ++ p :: x :: b) (S (length a)) (length a)
  = F64.ltb (key x) (key p).
Proof.
  unfold lessAt.
  replace ((a ++ p :: x :: b) !! S (length a)) with (Some x)
    by (induction a; simpl; auto).
  replace ((a ++ p :: x :: b) !! length a) with (Some p)
    by (induction a; simpl; auto).
  reflexivity.
Qed.

(** The inner loop moves the element at index [length a] down into the
    sorted [a]; what lies behind it stays. *)
Lemma insertDown_sorted (a : list E) :
  forall (x : E) (b r : list E),
    noDescent (map key (a ++ b)) ->
    noDescent (map key (x :: b)) ->
    exists s,
      sortDown (a ++ x :: b ++ r) 0%nat (length a) = s ++ r
      /\ Permutation (a ++ x :: b) s
      /\ noDescent (map key s).
Proof.
  induction a as [|p a IH] using rev_ind; intros x b r Hab Hxb.
  - exists (x :: b). simpl. repeat split; [reflexivity | exact Hxb].
  - rewrite length_app, Nat.add_1_r. rewrite insertDown_step.
    rewrite <- !app_assoc. simpl app.
    change (Less (a ++ p :: x :: b ++ r) (S (length a)) (length a))
      with (lessAt key (a ++ p :: x :: b ++ r) (S (length a)) (length a)).
    change (Swap (a ++ p :: x :: b ++ r) (S (length a)) (length a))
      with (swapAt (a ++ p :: x :: b ++ r) (S (length a)) (length a)).
    rewrite lessAt_adjacent, swapAt_adjacent.
    rewrite <- app_assoc in Hab. simpl app in Hab.
    destruct (F64.ltb (key x) (key p)) eqn:Elt.
    + destruct (IH x (p :: b) r) as (s & Hs & Hperm & Hasc).
      * exact Hab.
      * simpl. split; [now apply ltb_asym|].
        rewrite map_app in Hab. now apply noDescent_app_r in Hab.
      * exists s. split; [exact Hs|]. split; [|exact Hasc].
        rewrite <- Hperm. apply Permutation_app_head, perm_swap.
    + exists (a ++ p :: x :: b). split; [now rewrite <- app_assoc|].
      split; [reflexivity|].
      rewrite map_app in Hab |- *. simpl map in Hab |- *.
      apply noDescent_join.
      * replace (map key a ++ key p :: map key b)
          with ((map key a ++ [key p]) ++ map key b) in Hab
          by now rewrite <- app_assoc.
        now apply noDescent_app_l in Hab.
      * simpl. split; [exact Elt | exact Hxb].
Qed.

(** The outer loop extends the sorted prefix over the rest. *)
Lemma insertFrom_sorted (r : list E) :
  forall (p : list E),
    noDescent (map key p) ->
    exists s,
      sortFrom (p ++ r) 0%nat (length p) (length r) = s
      /\ Permutation (p ++ r) s
      /\ noDescent (map key s).
Proof.
  induction r as [|x r IH]; intros p Hp.
  - exists p. rewrite app_nil_r. repeat split; [reflexivity | exact Hp].
  - cbn [length]. rewrite insertFrom_step.
    destruct (insertDown_sorted p x [] r) as (s & Hs & Hperm & Hasc).
    + now rewrite app_nil_r.
    + exact I.
    + simpl app in Hs. rewrite Hs.
      destruct (IH s Hasc) as (s' & Hs' & Hperm' & Hasc').
      assert (Hlen : length s = S (length p)).
      { rewrite <- (Permutation_length Hperm), length_app, Nat.add_1_r.
        reflexivity. }
      rewrite Hlen in Hs'. exists s'. split; [exact Hs'|].
      split; [|exact Hasc'].
      rewrite <- Hperm', <- Hperm, <- app_assoc. reflexivity.
Qed.

Lemma insertionSort_keyed_sorted (l : list E) :
  noDescent
    (map key
       (@applySwaps (list E) (keyedInterface key)
          (@insertionSortSwaps (list E) (keyedInterface key) l 0 (length l))
          l)).
Proof.
  unfold insertionSortSwaps.
  destruct l as [|x r]; [exact I|].
  replace (length (x :: r) - 1)%nat with (length r) by (simpl; lia).
  destruct (insertFrom_sorted r [x] I) as (s & Hs & Hperm & Hasc).
  simpl in Hs. rewrite Hs. exact Hasc.
Qed.
End KeyedSort.

Lemma insertDownSwaps_ofPairs (j : nat) :
  forall (z : list (float64 * Z)) (a : nat),
    insertDownSwaps (ofPairs z) a j
    = @insertDownSwaps _ (keyedInterface fst) z a j.
Proof.
  induction j as [|j IH]; intros z a; [reflexivity|].
  cbn [insertDownSwaps]. rewrite Less_ofPairs, Swap_ofPairs.
  change (@Less _ (keyedInterface fst) z (S j) j) with (lessAt fst z (S j) j).
  destruct ((a <? S j)%nat && lessAt fst z (S j) j); [|reflexivity].
  f_equal. apply IH.
Qed.

Lemma insertFromSwaps_ofPairs (r : nat) :
  forall (z : list (float64 * Z)) (a i : nat),
    insertFromSwaps (ofPairs z) a i r
    = @insertFromSwaps _ (keyedInterface fst) z a i r.
Proof.
  induction r as [|r IH]; intros z a i; [reflexivity|].
  cbn [insertFromSwaps]. rewrite insertDownSwaps_ofPairs.
  rewrite applySwaps_ofPairs, IH. reflexivity.
Qed.

Lemma isSortedDown_noDescent (d : distribution) (i : nat) :
  noDescent (bounds d) -> isSortedDown d i = true.
Proof.
  intros Hasc. induction i as [|i IH]; [reflexivity|].
  simpl. unfold distribution_Less.
  destruct (bounds d !! S i) as [x|] eqn:Ex; [|exact IH].
  destruct (bounds d !! i) as [y|] eqn:Ey; [|exact IH].
  now rewrite (noDescent_lookup _ _ _ _ Hasc Ey Ex).
Qed.

(** The library's [insertionSort] on the whole of a scratch distribution
    leaves it as [sort.IsSorted] wants it, NaN bounds or not. *)
Lemma insertionSort_IsSorted (d : distribution) :
  length (bounds d) = length (values d) ->
  IsSorted (applySwaps (insertionSortSwaps d 0 (Len d)) d) = true.
Proof.
  intros Hlen. apply isSortedDown_noDescent.
  rewrite <- (ofPairs_pairsOf d Hlen).
  unfold insertionSortSwaps. rewrite insertFromSwaps_ofPairs.
  rewrite applySwaps_ofPairs.
  replace (Len (ofPairs (pairsOf d))) with (length (pairsOf d))
    by (simpl; unfold distribution_Len, ofPairs; simpl;
        now rewrite length_map).
  exact (insertionSort_keyed_sorted fst (pairsOf d)).
Qed.




(* ------------------------------------------------------------------ *)
(** ** The first loop of the distribution builder *)

Section WalkFacts.
Variable ParseFloat : string -> option float64.
Variable sortSwaps : sorter.
Context {D : Type} `{G : seriesGetter D}.
Variables (baseName : string) (matchLset : Labels).

Local Abbreviation walk' := (walk ParseFloat baseName matchLset).

(** A property of the loop variables that every assignment of the loop
    preserves holds when the loop ends. *)
Lemma walk_invariant (P : walkState -> Prop) :
  (forall st, P st -> P (consume st)) ->
  (forall st t, P st -> P (setLastTimestamp t st)) ->
  (forall st v, P st -> P (setSum v st)) ->
  (forall st v rt, P st -> P (setCount v rt st)) ->
  (forall st u v, P st -> P (appendBucket u (F64.to_int64 v) st)) ->
  (forall st, P st -> P (setSkip st)) ->
  forall (samples : list RefSample) (i : nat) (st : walkState) (d : D)
         (st' : walkState) (d' : D),
    P st ->
    run (walk' i st samples) d = (Some (WalkDone st'), d') ->
    P st'.
Proof.
  intros Hconsume Hlast Hsum Hcount Hbucket Hskip.
  induction samples as [|s rest IH]; intros i st d st' d' HP Hrun.
  - injection Hrun as <- <-. exact HP.
  - cbn [walk run] in Hrun.
    destruct (get (Ref s) d) as [[err| |e] d1].
    + discriminate.
    + eapply IH; [|exact Hrun]. auto.
    + destruct (negb _ || negb _); [injection Hrun as <- <-; exact HP|].
      destruct ((0 <? i)%nat && _); [injection Hrun as <- <-; exact HP|].
      cbn [run] in Hrun.
      destruct (getResetAdjusted _ _ _ d1) as [[[rt v] ok] d2].
      assert (Hafter : forall st0, P st0 ->
                 P (consume (if negb ok then setSkip st0 else st0))).
      { intros st0 H0. destruct ok; simpl; auto. }
      destruct (String.eqb _ metricSuffixSum);
        [eapply IH; [|exact Hrun]; auto|].
      destruct (String.eqb _ metricSuffixCount);
        [eapply IH; [|exact Hrun]; auto|].
      destruct (String.eqb _ metricSuffixBucket).
      * destruct (ParseFloat _); eapply IH; try exact Hrun; auto.
      * injection Hrun as <- <-. auto.
Qed.

(** The two arrays of the scratch distribution stay parallel. *)
Lemma walk_parallel (samples : list RefSample) (d : D)
    (st : walkState) (d' : D) :
  run (walk' 0%nat walkInit samples) d = (Some (WalkDone st), d') ->
  length (bounds (dist st)) = length (values (dist st)).
Proof.
  apply (walk_invariant
           (fun st => length (bounds (dist st)) = length (values (dist st))));
    try (intros; assumption); try reflexivity.
  intros st0 u v H. simpl. rewrite !length_app, H. reflexivity.
Qed.

(** The loop consumes each sample it passes and nothing else: at its end
    it has consumed at most the samples it was given. *)
Lemma walk_consumed (samples : list RefSample) :
  forall (i : nat) (st : walkState) (d : D) (st' : walkState) (d' : D),
    run (walk' i st samples) d = (Some (WalkDone st'), d') ->
    (consumed st <= consumed st' <= consumed st + length samples)%nat.
Proof.
  induction samples as [|s rest IH]; intros i st d st' d' Hrun.
  - injection Hrun as <- <-. simpl. lia.
  - cbn [walk run] in Hrun. simpl length.
    destruct (get (Ref s) d) as [[err| |e] d1].
    + discriminate.
    + apply IH in Hrun. simpl in Hrun. lia.
    + destruct (negb _ || negb _); [injection Hrun as <- <-; lia|].
      destruct ((0 <? i)%nat && _); [injection Hrun as <- <-; lia|].
      cbn [run] in Hrun.
      destruct (getResetAdjusted _ _ _ d1) as [[[rt v] ok] d2].
      destruct (String.eqb _ metricSuffixSum);
        [apply IH in Hrun; destruct ok; simpl in Hrun; lia|].
      destruct (String.eqb _ metricSuffixCount);
        [apply IH in Hrun; destruct ok; simpl in Hrun; lia|].
      destruct (String.eqb _ metricSuffixBucket).
      * destruct (ParseFloat _); apply IH in Hrun; destruct ok;
          simpl in Hrun; lia.
      * injection Hrun as <- <-. simpl. lia.
Qed.

(** The loop always ends, with an error or with its variables: it never
    panics. *)
Lemma walk_returns (samples : list RefSample) :
  forall (i : nat) (st : walkState) (d : D),
  exists (w : walkEnd) (d' : D), run (walk' i st samples) d = (Some w, d').
Proof.
  induction samples as [|s rest IH]; intros i st d.
  - eexists _, _. reflexivity.
  - cbn [walk run].
    destruct (get (Ref s) d) as [[err| |e] d1]; [eexists _, _; reflexivity|apply IH|].
    destruct (negb _ || negb _); [eexists _, _; reflexivity|].
    destruct ((0 <? i)%nat && _); [eexists _, _; reflexivity|].
    cbn [run].
    destruct (getResetAdjusted _ _ _ d1) as [[[rt v] ok] d2].
    destruct (String.eqb _ metricSuffixSum); [apply IH|].
    destruct (String.eqb _ metricSuffixCount); [apply IH|].
    destruct (String.eqb _ metricSuffixBucket);
      [destruct (ParseFloat _); apply IH | eexists _, _; reflexivity].
Qed.
End WalkFacts.

(* ------------------------------------------------------------------ *)
(** ** Bucket counts of an emitted distribution *)

Lemma to_int64_range (f : float64) : in_int64 (F64.to_int64 f).
Proof.
  unfold F64.to_int64, in_int64.
  destruct (F64.trunc f) as [z|]; [|lia].
  destruct ((- 2 ^ 63 <=? z) && (z <? 2 ^ 63)) eqn:E; [|lia].
  apply andb_prop in E as [E1 E2]. lia.
Qed.

Lemma wrap64_shift (z k : Z) : wrap64 (z + k * 2 ^ 64) = wrap64 z.
Proof.
  unfold wrap64. replace (z + k * 2 ^ 64 + 2 ^ 63) with (z + 2 ^ 63 + k * 2 ^ 64)
    by lia.
  now rewrite Z_mod_plus_full.
Qed.

Lemma wrap64_congruent (z : Z) : exists k, wrap64 z = z + k * 2 ^ 64.
Proof.
  exists (- ((z + 2 ^ 63) / 2 ^ 64)). unfold wrap64.
  pose proof (Z.div_mod (z + 2 ^ 63) (2 ^ 64) ltac:(lia)). lia.
Qed.

Lemma sumZ_snoc (l : list Z) (x : Z) : sumZ (l ++ [x]) = sumZ l + x.
Proof. unfold sumZ. induction l as [|a l IH]; simpl; lia. Qed.

Lemma countInf_cons (b : float64) (bs : list float64) :
  countInf (b :: bs) = ((if F64.IsInf b 1 then 1 else 0) + countInf bs)%nat.
Proof. unfold countInf. simpl. now destruct (F64.IsInf b 1). Qed.

Lemma countInf_perm (a b : list float64) :
  Permutation a b -> countInf a = countInf b.
Proof.
  induction 1 as [|x a b _ IH|x y a|a b c _ IH1 _ IH2];
    rewrite ?countInf_cons; lia.
Qed.

Lemma last_default (z : Z) (zs : list Z) (u v : Z) :
  List.last (z :: zs) u = List.last (v :: z :: zs) u.
Proof. reflexivity. Qed.

Lemma last_nonempty (zs : list Z) :
  forall (z u v : Z), List.last (z :: zs) u = List.last (z :: zs) v.
Proof.
  induction zs as [|y zs IH]; intros z u v; [reflexivity|].
  change (List.last (y :: zs) u = List.last (y :: zs) v). apply IH.
Qed.

Section Lowering.
Variable mean : float64.

(** The second loop appends one count for each bucket and one bound for
    each bucket but the [+Inf] ones; the counts are the differences of
    consecutive cumulative counts, so they sum (with wrap-around) to the
    last cumulative count. *)
Lemma lowerBuckets_spec (bs : list float64) :
  forall (vs : list Z) (l l' : lowering),
    lowerBuckets mean bs vs l = Some l' ->
    length (outValues l') = (length (outValues l) + length bs)%nat
    /\ (length (outBounds l') + countInf bs
        = length (outBounds l) + length bs)%nat
    /\ prevVal l' = List.last (firstn (length bs) vs) (prevVal l)
    /\ ((exists k, sumZ (outValues l) = prevVal l + k * 2 ^ 64) ->
        exists k, sumZ (outValues l') = prevVal l' + k * 2 ^ 64).
Proof.
  induction bs as [|b bs IH]; intros vs l l' H.
  - injection H as <-. simpl. repeat split; auto; lia.
  - destruct vs as [|v vs]; [discriminate|].
    simpl in H. apply IH in H as (H1 & H2 & H3 & H4).
    rewrite countInf_cons. simpl length.
    unfold lowerBucket in H1, H2, H3, H4; simpl in H1, H2, H3, H4.
    rewrite length_app in H1.
    split; [simpl in H1; lia|]. split.
    + destruct (F64.IsInf b 1); [lia|].
      rewrite length_app in H2. simpl in H2. lia.
    + split.
      * rewrite H3. simpl firstn.
        destruct (firstn (length bs) vs) as [|z zs]; [reflexivity|].
        rewrite <- last_default. apply last_nonempty.
      * intros [k Hk]. apply H4. rewrite sumZ_snoc, Hk.
        unfold int64_sub.
        destruct (wrap64_congruent (v - prevVal l)) as [k' ->].
        exists (k + k'). lia.
Qed.

Lemma lowerBuckets_total (bs : list float64) :
  forall (vs : list Z) (l : lowering),
    length bs = length vs ->
    exists l', lowerBuckets mean bs vs l = Some l'.
Proof.
  induction bs as [|b bs IH]; intros [|v vs] l H; try discriminate.
  - eexists; reflexivity.
  - simpl. apply IH. now injection H.
Qed.
End Lowering.

Lemma last_in_range (vs : list Z) :
  Forall in_int64 vs -> in_int64 (List.last vs 0).
Proof.
  induction 1 as [|v vs Hv _ IH]; [unfold in_int64; simpl; lia|].
  destruct vs; [exact Hv | exact IH].
Qed.

Lemma values_as_pairs (d : distribution) :
  length (bounds d) = length (values d) -> values d = map snd (pairsOf d).
Proof. intros H. rewrite <- (ofPairs_pairsOf d H) at 1. reflexivity. Qed.

(** C2 (amended). An emitted distribution has one bucket count for every
    bucket sample the loop gathered, and one bound for every gathered bucket
    but the [+Inf] ones: [len(bucketCounts)] is [len(explicitBounds)] plus
    the number of [+Inf] buckets, hence [len(explicitBounds) + 1] when the
    family was scraped with exactly one [+Inf] bucket. The bucket counts
    sum, in [int64], to the cumulative count of the bucket sorted last (0
    without buckets), which is the count field when that bucket agrees with
    the [_count] series. *)
Theorem buildDistribution_bucket_counts (ParseFloat : string -> option float64)
    (sortSwaps : sorter)
    {D : Type} `{G : seriesGetter D} (d d' : D)
    (baseName : string) (matchLset : Labels) (samples : list RefSample)
    (v : Distribution) (rt : Z) (rest : list RefSample) (err : option error) :
  run (buildDistribution ParseFloat sortSwaps baseName matchLset samples) d
  = (Some (Some v, rt, rest, err), d') ->
  exists st,
    run (walk ParseFloat baseName matchLset 0 walkInit samples) d
    = (Some (WalkDone st), d')
    /\ Count v = F64.to_int64 (count st)
    /\ length (BucketCounts v) = length (bounds (dist st))
    /\ length (BucketCounts v)
       = (length (Bounds v) + countInf (bounds (dist st)))%nat
    /\ wrap64 (sumZ (BucketCounts v))
       = List.last (values (Sort sortSwaps (dist st))) 0
    /\ (countInf (bounds (dist st)) = 1%nat ->
        length (BucketCounts v) = (length (Bounds v) + 1)%nat)
    /\ (List.last (values (Sort sortSwaps (dist st))) 0
        = F64.to_int64 (count st) ->
        wrap64 (sumZ (BucketCounts v)) = Count v).
Proof.
  intros Hrun.
  destruct (buildDistribution_emits _ _ _ _ _ _ _ _ _ _ _ Hrun)
    as (st & l & Hwalk & _ & _ & Hlower & -> & _).
  exists st. simpl.
  pose proof (walk_parallel _ _ _ _ _ _ _ Hwalk) as Hpar.
  assert (Hrange : Forall in_int64 (values (dist st))).
  { revert Hwalk.
    apply (walk_invariant _ _ _ (fun st => Forall in_int64 (values (dist st))));
      try (intros; assumption); [|constructor].
    intros st0 u x H. simpl. apply Forall_app. split; [exact H|].
    constructor; [apply to_int64_range | constructor]. }
  destruct (Sort_distribution_pairs sortSwaps (dist st) Hpar) as
      (Hperm & Hpar').
  assert (Hlen : length (bounds (Sort sortSwaps (dist st)))
                 = length (bounds (dist st))).
  { rewrite (bounds_as_pairs _ Hpar), (bounds_as_pairs _ Hpar'), !length_map.
    symmetry. apply Permutation_length, Hperm. }
  assert (Hinf : countInf (bounds (Sort sortSwaps (dist st)))
                 = countInf (bounds (dist st))).
  { rewrite (bounds_as_pairs _ Hpar), (bounds_as_pairs _ Hpar').
    symmetry. apply countInf_perm, Permutation_map, Hperm. }
  assert (Hrange' : Forall in_int64 (values (Sort sortSwaps (dist st)))).
  { rewrite (values_as_pairs _ Hpar'). rewrite (values_as_pairs _ Hpar) in Hrange.
    revert Hrange. apply Permutation_Forall, Permutation_map, Hperm. }
  apply lowerBuckets_spec in Hlower as (H1 & H2 & H3 & H4).
  simpl in H1, H2, H3, H4. rewrite Hlen in H1, H2. rewrite Hinf in H2.
  rewrite Hpar', firstn_all in H3.
  destruct H4 as [k Hk]; [exists 0; reflexivity|].
  assert (Hsum : wrap64 (sumZ (outValues l))
                 = List.last (values (Sort sortSwaps (dist st))) 0).
  { rewrite Hk, wrap64_shift, H3. apply wrap64_small, last_in_range, Hrange'. }
  split; [exact Hwalk|]. split; [reflexivity|]. split; [exact H1|].
  split; [lia|]. split; [exact Hsum|]. split; [lia|].
  intros <-. exact Hsum.
Qed.

Lemma buildDistribution_bucket_counts_witness :
  exists v d',
    run (buildDistribution parseLe shortSort "foo" Examples.histLset
        Examples.histStream)
        Examples.histDir
    = (Some (Some v, 500, [], None), d')
    /\ Bounds v = [Examples.f64 1; Examples.f64 2]
    /\ BucketCounts v = [2; 3; 2]
    /\ exists st,
         run (walk parseLe "foo" Examples.histLset 0 walkInit Examples.histStream)
             Examples.histDir
         = (Some (WalkDone st), d')
         /\ Count v = F64.to_int64 (count st)
         /\ length (BucketCounts v) = length (bounds (dist st))
         /\ length (BucketCounts v)
            = (length (Bounds v) + countInf (bounds (dist st)))%nat
         /\ wrap64 (sumZ (BucketCounts v))
            = List.last (values (Sort shortSort (dist st))) 0
         /\ (countInf (bounds (dist st)) = 1%nat ->
             length (BucketCounts v) = (length (Bounds v) + 1)%nat)
         /\ (List.last (values (Sort shortSort (dist st))) 0
             = F64.to_int64 (count st) ->
             wrap64 (sumZ (BucketCounts v)) = Count v).
Proof.
  eexists _, _.
  match goal with
  | |- ?A /\ _ => assert (Hrun : A) by (vm_compute; reflexivity)
  end.
  split; [exact Hrun|]. split; [reflexivity|]. split; [reflexivity|].
  exact (buildDistribution_bucket_counts parseLe shortSort Examples.histDir _
           "foo" Examples.histLset Examples.histStream _ 500 [] None Hrun).
Defined.

(** A family scraped without its [+Inf] bucket is emitted with as many
    bucket counts as bounds, and its bucket counts sum to the largest
    bucket, not to the count. *)
Lemma buildDistribution_without_inf_counterexample :
  exists v d',
    run (buildDistribution parseLe shortSort "foo" Examples.histLset
        Examples.noInfStream)
        Examples.histDir
    = (Some (Some v, 500, [], None), d')
    /\ length (BucketCounts v) = 2%nat /\ length (Bounds v) = 2%nat
    /\ length (BucketCounts v) <> (length (Bounds v) + 1)%nat
    /\ sumZ (BucketCounts v) = 5 /\ Count v = 7
    /\ sumZ (BucketCounts v) <> Count v.
Proof.
  eexists _, _. split; [vm_compute; reflexivity|].
  simpl. repeat split; try reflexivity; discriminate.
Qed.

(* ------------------------------------------------------------------ *)
(** ** The timestamp check of the first loop *)

Section WalkTimestamps.
Variable ParseFloat : string -> option float64.
Variable sortSwaps : sorter.
Context {D : Type} `{G : seriesGetter D}.
Variables (baseName : string) (matchLset : Labels).

Local Abbreviation walk' := (walk ParseFloat baseName matchLset).

(** A walk that consumes all of a prefix goes on with what follows. *)
Lemma walk_app (pre : list RefSample) :
  forall (more : list RefSample) (i : nat) (st : walkState) (d : D)
         (st' : walkState) (d1 : D),
    run (walk' i st pre) d = (Some (WalkDone st'), d1) ->
    consumed st' = (consumed st + length pre)%nat ->
    run (walk' i st (pre ++ more)) d
    = run (walk' (i + length pre) st' more) d1.
Proof.
  induction pre as [|s rest IH]; intros more i st d st' d1 Hrun Hall.
  - injection Hrun as <- <-. simpl. now rewrite Nat.add_0_r.
  - simpl length in *. rewrite <- Nat.add_succ_comm.
    cbn [walk run app] in Hrun |- *.
    destruct (get (Ref s) d) as [[err| |e] d0].
    + discriminate.
    + apply IH; [exact Hrun | simpl; lia].
    + destruct (negb _ || negb _); [injection Hrun as <- <-; lia|].
      destruct ((0 <? i)%nat && _); [injection Hrun as <- <-; lia|].
      cbn [run] in Hrun |- *.
      destruct (getResetAdjusted _ _ _ d0) as [[[rt v] ok] d2].
      destruct (String.eqb _ metricSuffixSum);
        [apply IH; [exact Hrun | destruct ok; simpl; lia]|].
      destruct (String.eqb _ metricSuffixCount);
        [apply IH; [exact Hrun | destruct ok; simpl; lia]|].
      destruct (String.eqb _ metricSuffixBucket).
      * destruct (ParseFloat _);
          (apply IH; [exact Hrun | destruct ok; simpl; lia]).
      * injection Hrun as <- <-. simpl in Hall. lia.
Qed.

(** All samples that get past the checks of one walk carry the same
    timestamp, and [lastTimestamp] is that timestamp. *)
Lemma walk_lastTimestamp (samples : list RefSample) :
  forall (i : nat) (st : walkState) (d : D) (st' : walkState) (d' : D),
    run (walk' i st samples) d = (Some (WalkDone st'), d') ->
    match adjustedAt (calls (walk' i st samples) d) with
    | [] => lastTimestamp st' = lastTimestamp st
    | t0 :: more =>
        lastTimestamp st' = t0 /\ Forall (eq t0) more
        /\ ((0 < i)%nat -> t0 = lastTimestamp st)
    end.
Proof.
  induction samples as [|s rest IH]; intros i st d st' d' Hrun.
  - injection Hrun as <- <-. reflexivity.
  - cbn [walk run calls] in Hrun |- *.
    destruct (get (Ref s) d) as [[err| |e] d0].
    + discriminate.
    + cbn [adjustedAt]. apply IH in Hrun.
      destruct (adjustedAt _) as [|t0 more]; [exact Hrun|].
      destruct Hrun as (H1 & H2 & H3).
      repeat split; try assumption. intros _. apply H3. lia.
    + destruct (negb _ || negb _);
        [injection Hrun as <- <-; reflexivity|].
      destruct ((0 <? i)%nat && negb (T s =? lastTimestamp st)) eqn:Echeck;
        [injection Hrun as <- <-; reflexivity|].
      assert (Hsame : (0 < i)%nat -> T s = lastTimestamp st).
      { intros Hi. apply Nat.ltb_lt in Hi. rewrite Hi in Echeck.
        simpl in Echeck. apply negb_false_iff in Echeck.
        now apply Z.eqb_eq. }
      cbn [run calls] in Hrun |- *.
      destruct (getResetAdjusted _ _ _ d0) as [[[rt v] ok] d2].
      cbn [adjustedAt].
      assert (Hstep : forall st0,
                 lastTimestamp st0 = T s ->
                 run (walk' (S i) st0 rest) d2 = (Some (WalkDone st'), d') ->
                 lastTimestamp st' = T s
                 /\ Forall (eq (T s))
                      (adjustedAt (calls (walk' (S i) st0 rest) d2))
                 /\ ((0 < i)%nat -> T s = lastTimestamp st)).
      { intros st0 H0 Hrun0. apply IH in Hrun0.
        destruct (adjustedAt _) as [|t1 more].
        - repeat split; [congruence | constructor | exact Hsame].
        - destruct Hrun0 as (H1 & H2 & H3).
          assert (t1 = T s) as -> by (rewrite <- H0; apply H3; lia).
          repeat split; [exact H1 | now constructor | exact Hsame]. }
      destruct (String.eqb _ metricSuffixSum);
        [apply Hstep; [now destruct ok | exact Hrun]|].
      destruct (String.eqb _ metricSuffixCount);
        [apply Hstep; [now destruct ok | exact Hrun]|].
      destruct (String.eqb _ metricSuffixBucket).
      * destruct (ParseFloat _);
          (apply Hstep; [now destruct ok | exact Hrun]).
      * injection Hrun as <- <-. cbn [calls adjustedAt].
        repeat split; [constructor | exact Hsame].
Qed.

(** [buildDistribution] after a first loop that ended by itself: it
    returns the samples that the loop did not consume. *)
Lemma buildDistribution_after_walk (samples : list RefSample) (d : D)
    (st : walkState) (d' : D) :
  run (walk' 0%nat walkInit samples) d = (Some (WalkDone st), d') ->
  length (bounds (dist st)) = length (values (dist st)) ->
  exists v rt,
    run (buildDistribution ParseFloat sortSwaps baseName matchLset samples) d
    = (Some (v, rt, drop (consumed st) samples, None), d').
Proof.
  intros Hrun Hpar. unfold buildDistribution. rewrite run_bind, Hrun.
  destruct (skip st || (resetTimestamp st =? 0));
    [eexists _, _; reflexivity|].
  destruct (Sort_distribution_pairs sortSwaps (dist st) Hpar) as (_ & Hpar').
  destruct (lowerBuckets_total (meanOf st) _ _ loweringInit Hpar')
    as [l ->].
  eexists _, _. reflexivity.
Qed.
End WalkTimestamps.




(* ------------------------------------------------------------------ *)
(** ** What [next] returns *)

Section Outcomes.
Variable ParseFloat : string -> option float64.
Variable sortSwaps : sorter.
Context {D : Type} `{G : seriesGetter D}.

(** An error of the first loop is an error that a lookup returned. *)
Lemma walk_error_is_lookup (baseName : string) (matchLset : Labels)
    (samples : list RefSample) :
  forall (i : nat) (st : walkState) (d d' : D) (e : error),
    run (walk ParseFloat baseName matchLset i st samples) d
    = (Some (WalkError e), d') ->
    exists s d0, In s samples /\ get (Ref s) d0 = (GetError e, d').
Proof.
  induction samples as [|s rest IH]; intros i st d d' e Hrun;
    [discriminate|].
  cbn [walk run] in Hrun.
  destruct (get (Ref s) d) as [[err| |entry] d1] eqn:Eget.
  - injection Hrun as <- <-. exists s, d. split; [now left | exact Eget].
  - apply IH in Hrun as (s' & d0 & Hin & Hget).
    exists s', d0. split; [now right | exact Hget].
  - assert (Hrec : forall i0 st0 d2,
               run (walk ParseFloat baseName matchLset i0 st0 rest) d2
               = (Some (WalkError e), d') ->
               exists s' d0, In s' (s :: rest)
                             /\ get (Ref s') d0 = (GetError e, d')).
    { intros i0 st0 d2 H0. apply IH in H0 as (s' & d0 & Hin & Hget).
      exists s', d0. split; [now right | exact Hget]. }
    destruct (negb _ || negb _); [discriminate|].
    destruct ((0 <? i)%nat && _); [discriminate|].
    cbn [run] in Hrun.
    destruct (getResetAdjusted _ _ _ d1) as [[[rt v] ok] d2].
    destruct (String.eqb _ metricSuffixSum); [now apply Hrec in Hrun|].
    destruct (String.eqb _ metricSuffixCount); [now apply Hrec in Hrun|].
    destruct (String.eqb _ metricSuffixBucket); [|discriminate].
    destruct (ParseFloat _); now apply Hrec in Hrun.
Qed.

(** A loop that has set the reset timestamp has consumed a sample. *)
Lemma walk_reset_consumed (baseName : string) (matchLset : Labels)
    (samples : list RefSample) (i : nat) (st : walkState) (d : D)
    (st' : walkState) (d' : D) :
  run (walk ParseFloat baseName matchLset i st samples) d
  = (Some (WalkDone st'), d') ->
  resetTimestamp st' <> resetTimestamp st ->
  (consumed st < consumed st')%nat.
Proof.
  destruct samples as [|s rest]; intros Hrun Hreset.
  - injection Hrun as <- <-. congruence.
  - cbn [walk run] in Hrun.
    destruct (get (Ref s) d) as [[err| |entry] d1]; [discriminate| |].
    + apply walk_consumed in Hrun. simpl in Hrun. lia.
    + destruct (negb _ || negb _); [injection Hrun as <- <-; congruence|].
      destruct ((0 <? i)%nat && _); [injection Hrun as <- <-; congruence|].
      cbn [run] in Hrun.
      destruct (getResetAdjusted _ _ _ d1) as [[[rt v] ok] d2].
      destruct (String.eqb _ metricSuffixSum);
        [apply walk_consumed in Hrun; destruct ok; simpl in Hrun; lia|].
      destruct (String.eqb _ metricSuffixCount);
        [apply walk_consumed in Hrun; destruct ok; simpl in Hrun; lia|].
      destruct (String.eqb _ metricSuffixBucket).
      * destruct (ParseFloat _); apply walk_consumed in Hrun;
          destruct ok; simpl in Hrun; lia.
      * injection Hrun as <- <-. simpl in Hreset. congruence.
Qed.

(** [buildDistribution] always returns. Without an error it returns the
    stream from some position on, a position after the first sample
    whenever it returns a distribution; with an error, which is a lookup
    error of its loop, it returns the stream as it was. *)
Lemma buildDistribution_outcome (baseName : string) (matchLset : Labels)
    (samples : list RefSample) (d : D) :
  exists v rt rest err d',
    run (buildDistribution ParseFloat sortSwaps baseName matchLset samples) d
    = (Some (v, rt, rest, err), d')
    /\ match err with
       | None =>
           exists k, (k <= length samples)%nat /\ rest = drop k samples
                     /\ (v <> None -> (0 < k)%nat)
       | Some e =>
           v = None /\ rest = samples
           /\ run (walk ParseFloat baseName matchLset 0 walkInit samples) d
              = (Some (WalkError e), d')
       end.
Proof.
  destruct (walk_returns ParseFloat baseName matchLset samples 0%nat
              walkInit d) as ([e|st] & d' & Hwalk).
  - exists None, 0, samples, (Some e), d'. split; [|now repeat split].
    unfold buildDistribution. rewrite run_bind, Hwalk. reflexivity.
  - pose proof (walk_parallel _ _ _ _ _ _ _ Hwalk) as Hpar.
    pose proof (walk_consumed _ _ _ _ _ _ _ _ _ Hwalk) as Hcons.
    simpl in Hcons.
    unfold buildDistribution. rewrite run_bind, Hwalk.
    destruct (skip st || (resetTimestamp st =? 0)) eqn:Eskip.
    + exists None, 0, (drop (consumed st) samples), None, d'.
      split; [reflexivity|]. exists (consumed st).
      repeat split; [lia | congruence].
    + apply orb_false_elim in Eskip as [_ Ereset].
      apply Z.eqb_neq in Ereset.
      destruct (Sort_distribution_pairs sortSwaps (dist st) Hpar) as
          (_ & Hpar').
      destruct (lowerBuckets_total (meanOf st) _ _ loweringInit Hpar')
        as [l ->].
      eexists (Some _), _, _, None, d'. split; [reflexivity|].
      exists (consumed st). repeat split; [lia|]. intros _.
      apply (walk_reset_consumed _ _ _ _ _ _ _ _ Hwalk Ereset).
Qed.

Lemma adjusted_outcome (sample : RefSample) (tailSamples : list RefSample)
    (mk : float64 -> TypedValue) (d : D) :
  exists b d',
    run (adjusted sample tailSamples mk) d = (Some b, d')
    /\ (b = Returns tailSamples None
        \/ exists rt v,
             b = Built rt (Some (getTimestamp rt)) (mk v) tailSamples).
Proof.
  unfold adjusted. rewrite run_bind. unfold series_getResetAdjusted.
  cbn [run].
  destruct (getResetAdjusted _ _ _ d) as [[[rt v] ok] d'].
  destruct ok; simpl; eexists _, _; (split; [reflexivity|]);
    [right; eexists _, _; reflexivity | now left].
Qed.

(** The dispatch on the metric type always returns. A point is built
    only with a remainder that starts after the first sample. An early
    return without error leaves the tail of the stream, or, for a
    histogram, the stream from some position on. An early return with an
    error is one of: a summary with an unexpected suffix, or an unexpected
    metric type, both with the tail of the stream; or a lookup error
    inside the distribution builder, with the whole stream. *)
Lemma dispatch_outcome (entry : seriesCacheEntry) (sample : RefSample)
    (tailSamples : list RefSample) (d : D) :
  exists b d',
    run (dispatch ParseFloat sortSwaps entry sample (sample :: tailSamples)
           tailSamples) d = (Some b, d')
    /\ match b with
       | Built _ _ _ rest =>
           exists k, (0 < k <= S (length tailSamples))%nat
                     /\ rest = drop k (sample :: tailSamples)
       | Returns rest None =>
           rest = tailSamples
           \/ (metricType (metadata entry) = MetricTypeHistogram
               /\ exists k, (k <= S (length tailSamples))%nat
                            /\ rest = drop k (sample :: tailSamples))
       | Returns rest (Some e) =>
           (rest = tailSamples
            /\ ((metricType (metadata entry) = MetricTypeSummary
                 /\ suffix entry <> metricSuffixSum
                 /\ suffix entry <> metricSuffixCount
                 /\ suffix entry <> ""
                 /\ e = Errorf "unexpected metric name suffix %q"
                          (suffix entry))
                \/ exists name,
                     metricType (metadata entry) = MetricTypeOther name
                     /\ e = Errorf "unexpected metric type %s" name))
           \/ (metricType (metadata entry) = MetricTypeHistogram
               /\ rest = sample :: tailSamples
               /\ run (walk ParseFloat (Metric (metadata entry)) (lset entry)
                         0 walkInit (sample :: tailSamples)) d
                  = (Some (WalkError e), d'))
       end.
Proof.
  assert (Htail : exists k, (0 < k <= S (length tailSamples))%nat
                            /\ tailSamples = drop k (sample :: tailSamples)).
  { exists 1%nat. split; [lia | reflexivity]. }
  assert (Hadj : forall mk,
             exists b d',
               run (adjusted sample tailSamples mk) d = (Some b, d')
               /\ match b with
                  | Built _ _ _ rest =>
                      exists k, (0 < k <= S (length tailSamples))%nat
                                /\ rest = drop k (sample :: tailSamples)
                  | Returns rest None =>
                      rest = tailSamples
                      \/ (metricType (metadata entry) = MetricTypeHistogram
                          /\ exists k, (k <= S (length tailSamples))%nat
                                       /\ rest = drop k (sample :: tailSamples))
                  | Returns rest (Some e) => False
                  end).
  { intros mk.
    destruct (adjusted_outcome sample tailSamples mk d)
      as (b & d' & Hrun & [-> | (rt & v & ->)]);
      eexists _, d'; (split; [exact Hrun|]); [now left | exact Htail]. }
  unfold dispatch.
  destruct (metricType (metadata entry)) as [| | | | |name] eqn:Etype.
  - destruct (Hadj (buildTypedValue (valueType (metadata entry))))
      as (b & d' & Hrun & Hb).
    exists b, d'. split; [exact Hrun|].
    destruct b as [rest [e|]|]; [contradiction | exact Hb | exact Hb].
  - eexists _, d. split; [reflexivity | exact Htail].
  - destruct (buildDistribution_outcome (Metric (metadata entry))
                (lset entry) (sample :: tailSamples) d)
      as (v & rt & rest & err & d' & Hrun & Hout).
    rewrite run_bind, Hrun.
    destruct err as [e|].
    + destruct Hout as (-> & -> & Hwalk).
      eexists _, d'. split; [reflexivity|]. right. auto.
    + destruct Hout as (k & Hk & -> & Hpos).
      destruct v as [dv|]; eexists _, d'; (split; [reflexivity|]).
      * exists k. split; [|reflexivity].
        simpl in Hk. split; [apply Hpos; discriminate | lia].
      * right. split; [reflexivity|]. exists k. auto.
  - destruct (String.eqb (suffix entry) metricSuffixSum) eqn:Esum.
    { destruct (Hadj DoubleValue) as (b & d' & Hrun & Hb).
      exists b, d'. split; [exact Hrun|].
      destruct b as [rest [e|]|]; [contradiction | exact Hb | exact Hb]. }
    destruct (String.eqb (suffix entry) metricSuffixCount) eqn:Ecount.
    { destruct (Hadj (fun v => Int64Value (F64.to_int64 v)))
        as (b & d' & Hrun & Hb).
      exists b, d'. split; [exact Hrun|].
      destruct b as [rest [e|]|]; [contradiction | exact Hb | exact Hb]. }
    destruct (String.eqb (suffix entry) "") eqn:Eempty.
    { eexists _, d. split; [reflexivity | exact Htail]. }
    eexists _, d. split; [reflexivity|]. left. split; [reflexivity|].
    left. apply String.eqb_neq in Esum, Ecount, Eempty. auto.
  - eexists _, d. split; [reflexivity | exact Htail].
  - eexists _, d. split; [reflexivity|]. left. split; [reflexivity|].
    right. exists name. auto.
Qed.
End Outcomes.

Section NextOutcome.
Variable ParseFloat : string -> option float64.
Variable sortSwaps : sorter.
Context {D : Type} `{G : seriesGetter D}.

(** [next] returns on every non-empty stream, and what it returns is one
    of the following. Without an error, the remainder is the stream from a
    position [k] on, and [k > 0] unless the first sample belongs to a
    histogram and nothing is emitted. With an error, nothing is emitted
    and: the lookup of the first sample failed and the remainder is the
    whole stream; or the entry is a summary with an unexpected suffix or
    has an unexpected metric type and the remainder is the tail; or a
    lookup inside the distribution builder failed and the remainder is the
    whole stream. *)
Lemma next_outcome (sample : RefSample) (tailSamples : list RefSample)
    (d : D) :
  exists ts h rest err d',
    run (next ParseFloat sortSwaps (sample :: tailSamples)) d
    = (Some (ts, h, rest, err), d')
    /\ match err with
       | None =>
           exists k,
             (k <= S (length tailSamples))%nat
             /\ rest = drop k (sample :: tailSamples)
             /\ ((0 < k)%nat
                 \/ (ts = None
                     /\ exists entry d1,
                          get (Ref sample) d = (GetHit entry, d1)
                          /\ metricType (metadata entry)
                             = MetricTypeHistogram))
       | Some e =>
           ts = None /\ h = 0
           /\ ((exists e0 d1,
                  get (Ref sample) d = (GetError e0, d1)
                  /\ e = Wrap e0 "get series information"
                  /\ rest = sample :: tailSamples)
               \/ exists entry d1,
                    get (Ref sample) d = (GetHit entry, d1)
                    /\ exported entry = true
                    /\ ((rest = tailSamples
                         /\ ((metricType (metadata entry) = MetricTypeSummary
                              /\ suffix entry <> metricSuffixSum
                              /\ suffix entry <> metricSuffixCount
                              /\ suffix entry <> ""
                              /\ e = Errorf "unexpected metric name suffix %q"
                                       (suffix entry))
                             \/ exists name,
                                  metricType (metadata entry)
                                  = MetricTypeOther name
                                  /\ e = Errorf "unexpected metric type %s"
                                           name))
                        \/ (metricType (metadata entry) = MetricTypeHistogram
                            /\ rest = sample :: tailSamples
                            /\ exists d2,
                                 run (walk ParseFloat (Metric (metadata entry))
                                        (lset entry) 0 walkInit
                                        (sample :: tailSamples)) d2
                                 = (Some (WalkError e), d'))))
       end.
Proof.
  assert (Hdrop : forall tsv : option TimeSeries,
             exists k, (k <= S (length tailSamples))%nat
               /\ tailSamples = drop k (sample :: tailSamples)
               /\ ((0 < k)%nat
                   \/ (tsv = None
                       /\ exists entry d1,
                            get (Ref sample) d = (GetHit entry, d1)
                            /\ metricType (metadata entry)
                               = MetricTypeHistogram))).
  { intros tsv. exists 1%nat. repeat split; [lia | left; lia]. }
  unfold next. destruct (F64.IsNaN (V sample)).
  { eexists _, _, _, None, d. split; [reflexivity | apply Hdrop]. }
  rewrite run_bind. unfold series_get at 1. cbn [run].
  destruct (get (Ref sample) d) as [[e0| |entry] d1] eqn:Eget; cbv iota beta.
  { eexists _, _, _, (Some _), d1. split; [reflexivity|].
    repeat split. left. exists e0, d1. auto. }
  { eexists _, _, _, None, d1. split; [reflexivity | apply Hdrop]. }
  rewrite run_bind.
  assert (Htracker : exists d2,
             run (match tracker entry with
                  | Some tr =>
                      tracker_newPoint tr (lset entry) (T sample) (V sample)
                  | None => Ret tt
                  end) d1 = (Some tt, d2)).
  { destruct (tracker entry); eexists; reflexivity. }
  destruct Htracker as [d2 ->].
  destruct (exported entry) eqn:Eexp; simpl negb; cbv iota.
  2:{ eexists _, _, _, None, d2. split; [reflexivity | apply Hdrop]. }
  rewrite run_bind.
  destruct (dispatch_outcome ParseFloat sortSwaps entry sample tailSamples d2)
    as (b & d3 & -> & Hb).
  destruct b as [rest [e|]|rt startTime value rest].
  - eexists _, _, _, (Some e), d3. split; [reflexivity|].
    repeat split. right. exists entry, d1.
    split; [reflexivity|]. split; [exact Eexp|].
    destruct Hb as [Htail | (Htype & -> & Hwalk)];
      [left; exact Htail | right; eauto].
  - eexists _, _, _, None, d3. split; [reflexivity|].
    destruct Hb as [-> | (Htype & k & Hk & ->)]; [apply Hdrop|].
    exists k. repeat split; [exact Hk|]. right. split; [reflexivity|].
    exists entry, d1. auto.
  - destruct Hb as (k & Hk & ->).
    rewrite run_bind. unfold series_updateSampleInterval. cbn [run].
    destruct (updateSampleInterval _ _ _ d3) as [ok d4].
    destruct ok; simpl; eexists _, _, _, None, d4;
      (split; [reflexivity|]); exists k; (repeat split; [lia | left; lia]).
Qed.
End NextOutcome.

(* ------------------------------------------------------------------ *)
(** ** A histogram series without a histogram suffix *)

(** C1, at the input on which the code departs from it. The stream holds
    one sample of the series [foo], a metric that the metadata declares a
    histogram. [next] returns without an error and without a point, and the
    remainder is the whole stream: the first loop of the distribution
    builder leaves the loop at the sample (its name has none of the three
    suffixes) before it counts it as consumed. So the returned stream is not
    shorter than the input, and the caller's loop, which calls [next] until
    the stream is empty, has the same stream after any number of rounds. *)
Theorem next_bare_histogram_never_advances (served : nat) :
  run (next parseLe shortSort Examples.bareStream) (Examples.bareDir served)
  = (Some (None, 0, Examples.bareStream, None),
     Examples.bareDir (S (S (S served))))
  /\ forall n : nat,
       Examples.rounds n Examples.bareStream (Examples.bareDir served)
       = Examples.bareStream.
Proof.
  assert (Hstep : forall k,
             run (next parseLe shortSort Examples.bareStream)
                 (Examples.bareDir k)
             = (Some (None, 0, Examples.bareStream, None),
                Examples.bareDir (S (S (S k))))).
  { intros k. reflexivity. }
  split; [apply Hstep|].
  intros n. revert served. induction n as [|n IH]; intros served;
    [reflexivity|].
  change (Examples.rounds (S n) Examples.bareStream (Examples.bareDir served))
    with (match run (next parseLe shortSort Examples.bareStream)
        (Examples.bareDir served)
          with
          | (Some (_, _, rest, _), d') => Examples.rounds n rest d'
          | (None, _) => Examples.bareStream
          end).
  rewrite Hstep. apply IH.
Qed.

(** C6, at the input on which the code departs from it. The series
    [foo_total] resolves to the metadata of [foo], a histogram, and has no
    reset anchor yet. On a stream that starts with a sample of it, [next]
    reports no error and emits nothing, as for the other silent drops, but
    the stream is not advanced: the remainder is the input, of the same
    length. *)
Theorem next_total_histogram_silent_without_advance :
  exists d',
    run (next parseLe shortSort Examples.totalStream) Examples.totalDir
    = (Some (None, 0, Examples.totalStream, None), d')
    /\ fst (get 2 Examples.totalDir) = GetHit Examples.totalEntry
    /\ metricType (metadata Examples.totalEntry) = MetricTypeHistogram
    /\ fst (getResetAdjusted 2 1000 (Examples.f64 3) Examples.totalDir)
       = (0, F64.zero, false)
    /\ length Examples.totalStream = 2%nat.
Proof.
  eexists. split; [vm_compute; reflexivity|].
  repeat split; reflexivity.
Qed.

(* ================================================================== *)
(** * Further properties *)

(* ------------------------------------------------------------------ *)
(** ** The label comparator is an equivalence *)

(** X1. [histogramLabelsEqual] is reflexive and symmetric: a label set
    matches itself, and exchanging the arguments does not change the
    result. *)
Theorem histogramLabelsEqual_refl_sym :
  (forall a : Labels, histogramLabelsEqual a a = true)
  /\ (forall a b : Labels, histogramLabelsEqual a b = histogramLabelsEqual b a).
Proof.
  split; [apply histogramLabelsEqual_refl|]. intros a b.
  destruct (histogramLabelsEqual a b) eqn:Eab,
           (histogramLabelsEqual b a) eqn:Eba; try reflexivity.
  - apply histogramLabelsEqual_otherLabels in Eab. symmetry in Eab.
    apply histogramLabelsEqual_otherLabels in Eab. congruence.
  - apply histogramLabelsEqual_otherLabels in Eba. symmetry in Eba.
    apply histogramLabelsEqual_otherLabels in Eba. congruence.
Qed.

(** X2. [histogramLabelsEqual] is transitive: series that match a common
    series match each other, so the series gathered into one distribution
    (all matched against the label set of the first sample) agree pairwise
    outside [le] and [__name__]. *)
Theorem histogramLabelsEqual_trans (a b c : Labels) :
  histogramLabelsEqual a b = true ->
  histogramLabelsEqual b c = true ->
  histogramLabelsEqual a c = true.
Proof.
  rewrite !histogramLabelsEqual_otherLabels. congruence.
Qed.

Lemma histogramLabelsEqual_trans_witness :
  histogramLabelsEqual
    [mkLabel "__name__" "foo_bucket"; mkLabel "job" "api"; mkLabel "le" "1"]
    [mkLabel "__name__" "foo_sum"; mkLabel "job" "api"] = true
  /\ histogramLabelsEqual
       [mkLabel "__name__" "foo_sum"; mkLabel "job" "api"]
       [mkLabel "job" "api"; mkLabel "le" "+Inf"] = true
  /\ histogramLabelsEqual
       [mkLabel "__name__" "foo_bucket"; mkLabel "job" "api"; mkLabel "le" "1"]
       [mkLabel "job" "api"; mkLabel "le" "+Inf"] = true.
Proof.
  split; [reflexivity|]. split; [reflexivity|].
  apply (histogramLabelsEqual_trans _
           [mkLabel "__name__" "foo_sum"; mkLabel "job" "api"]);
    reflexivity.
Defined.

(* ------------------------------------------------------------------ *)
(** ** The name classifier inverts appending a suffix *)

(** Of two suffixes of one string, the shorter is a suffix of the longer. *)
Lemma suffixes_nest (p : string) :
  forall (q a b : string),
    (p ++ a = q ++ b)%string ->
    (String.length a <= String.length b)%nat ->
    exists r, b = (r ++ a)%string.
Proof.
  induction p as [|c p IH]; intros q a b E Hlen.
  - simpl in E. subst a. rewrite length_append in Hlen.
    destruct q as [|c q]; [exists ""; reflexivity | simpl in Hlen; lia].
  - destruct q as [|c' q].
    + simpl in E. exists (String c p). now rewrite <- E.
    + simpl in E. injection E as _ E. now apply (IH q).
Qed.

Lemma HasSuffix_exclusive (name a b : string) :
  GoString.HasSuffix name a = true ->
  GoString.HasSuffix name b = true ->
  (String.length a <= String.length b)%nat ->
  GoString.HasSuffix b a = true.
Proof.
  intros Ha Hb Hlen.
  apply HasSuffix_iff in Ha as [p Ep]. apply HasSuffix_iff in Hb as [q Eq].
  rewrite Ep in Eq. destruct (suffixes_nest p q a b Eq Hlen) as [r ->].
  apply HasSuffix_app.
Qed.

Lemma cut_app (p s : string) :
  GoString.slice (p ++ s) 0 (String.length (p ++ s) - String.length s) = p.
Proof.
  unfold GoString.slice. rewrite length_append, Nat.sub_0_r.
  replace (String.length p + String.length s - String.length s)%nat
    with (String.length p) by lia.
  apply substring_app_prefix.
Qed.

(** X3. The four suffixes exclude each other (no name ends in two of
    them), so the classifier inverts appending: for every prefix [p] and
    each suffix [s] of [_bucket], [_count], [_sum], [_total], the name
    [p ++ s] is classified as [(p, s, true)], whatever [p] ends in. *)
Theorem stripComplexMetricSuffix_app (p : string) :
  stripComplexMetricSuffix (p ++ metricSuffixBucket)
  = (p, metricSuffixBucket, true)
  /\ stripComplexMetricSuffix (p ++ metricSuffixCount)
     = (p, metricSuffixCount, true)
  /\ stripComplexMetricSuffix (p ++ metricSuffixSum)
     = (p, metricSuffixSum, true)
  /\ stripComplexMetricSuffix (p ++ metricSuffixTotal)
     = (p, metricSuffixTotal, true).
Proof.
  assert (Hno : forall a b,
             GoString.HasSuffix b a = false ->
             GoString.HasSuffix a b = false ->
             GoString.HasSuffix (p ++ a) b = false).
  { intros a b Hba Hab.
    destruct (GoString.HasSuffix (p ++ a) b) eqn:E; [|reflexivity].
    pose proof (HasSuffix_app p a) as Ha.
    destruct (Nat.le_ge_cases (String.length a) (String.length b)) as [L|L].
    - pose proof (HasSuffix_exclusive _ _ _ Ha E L). congruence.
    - pose proof (HasSuffix_exclusive _ _ _ E Ha L). congruence. }
  unfold stripComplexMetricSuffix.
  repeat split.
  - now rewrite HasSuffix_app, cut_app.
  - rewrite (Hno metricSuffixCount metricSuffixBucket) by reflexivity.
    now rewrite HasSuffix_app, cut_app.
  - rewrite (Hno metricSuffixSum metricSuffixBucket) by reflexivity.
    rewrite (Hno metricSuffixSum metricSuffixCount) by reflexivity.
    now rewrite HasSuffix_app, cut_app.
  - rewrite (Hno metricSuffixTotal metricSuffixBucket) by reflexivity.
    rewrite (Hno metricSuffixTotal metricSuffixCount) by reflexivity.
    rewrite (Hno metricSuffixTotal metricSuffixSum) by reflexivity.
    now rewrite HasSuffix_app, cut_app.
Qed.

(* ------------------------------------------------------------------ *)
(** ** Metric types and timestamps *)

Lemma append_inj_r (p a b : string) : (p ++ a = p ++ b)%string -> a = b.
Proof.
  induction p as [|c p IH]; simpl; intros E; [exact E|].
  injection E as E. now apply IH.
Qed.

(** X4. Under one prefix, [getMetricType] maps different Prometheus names
    to different metric types; the empty prefix stands for the default
    prefix [external.googleapis.com/prometheus]. *)
Theorem getMetricType_injective (prefix a b : string) :
  getMetricType prefix a = getMetricType prefix b ->
  a = b /\ getMetricType "" a = getMetricType metricsPrefix a.
Proof.
  intros E. split; [|reflexivity].
  unfold getMetricType in E.
  destruct (String.eqb prefix ""); apply append_inj_r in E;
    now apply (append_inj_r "/") in E.
Qed.

Lemma getMetricType_injective_witness :
  getMetricType "" "up" = getMetricType "" "up"
  /\ ("up" = "up"
      /\ getMetricType "" "up" = getMetricType metricsPrefix "up").
Proof.
  split; [reflexivity|].
  apply (getMetricType_injective "" "up" "up"). reflexivity.
Defined.

(** X5. [getTimestamp] loses nothing: the milliseconds are recovered as
    [1000 * seconds + nanos / 1000000]. The nanoseconds are a whole number
    of milliseconds of magnitude below one second, and they carry the sign
    of [t]: negative for a negative [t] that is not a whole second. *)
Theorem getTimestamp_round_trip (t : Z) :
  in_int64 t ->
  1000 * Seconds (getTimestamp t) + Nanos (getTimestamp t) / 1000000 = t
  /\ Nanos (getTimestamp t) mod 1000000 = 0
  /\ - 1000000000 < Nanos (getTimestamp t) < 1000000000
  /\ (0 <= t -> 0 <= Seconds (getTimestamp t) /\ 0 <= Nanos (getTimestamp t))
  /\ (t <= 0 -> Seconds (getTimestamp t) <= 0 /\ Nanos (getTimestamp t) <= 0).
Proof.
  intros Ht. rewrite (getTimestamp_arith t Ht). simpl.
  pose proof (Z.quot_rem' t 1000) as Hqr.
  pose proof (Z.rem_bound_abs t 1000 ltac:(lia)) as Hb.
  rewrite Z.div_mul, Z.mod_mul by lia.
  split; [lia|]. split; [reflexivity|]. split; [lia|].
  split; intros Hs.
  - pose proof (Z.rem_nonneg t 1000 ltac:(lia) Hs).
    pose proof (Z.quot_pos t 1000 Hs ltac:(lia)). lia.
  - pose proof (Z.rem_nonpos t 1000 ltac:(lia) Hs).
    assert (0 <= Z.quot (- t) 1000) by (apply Z.quot_pos; lia).
    rewrite Z.quot_opp_l in * by lia. lia.
Qed.

Lemma getTimestamp_round_trip_witness :
  in_int64 (-1500)
  /\ getTimestamp (-1500) = {| Seconds := -1; Nanos := -500000000 |}
  /\ (1000 * Seconds (getTimestamp (-1500))
      + Nanos (getTimestamp (-1500)) / 1000000 = -1500
      /\ Nanos (getTimestamp (-1500)) mod 1000000 = 0
      /\ - 1000000000 < Nanos (getTimestamp (-1500)) < 1000000000
      /\ (0 <= -1500 -> 0 <= Seconds (getTimestamp (-1500))
                        /\ 0 <= Nanos (getTimestamp (-1500)))
      /\ (-1500 <= 0 -> Seconds (getTimestamp (-1500)) <= 0
                        /\ Nanos (getTimestamp (-1500)) <= 0)).
Proof.
  assert (H : in_int64 (-1500)) by (unfold in_int64; lia).
  split; [exact H|]. split; [reflexivity|].
  apply (getTimestamp_round_trip (-1500) H).
Defined.

(* ------------------------------------------------------------------ *)
(** ** Exchanging two buckets *)

Lemma swapAt_lookup {A : Type} (l : list A) (i j : nat) (x y : A) :
  l !! i = Some x -> l !! j = Some y ->
  swapAt l i j !! i = Some y /\ swapAt l i j !! j = Some x
  /\ length (swapAt l i j) = length l
  /\ forall k, k <> i -> k <> j -> swapAt l i j !! k = l !! k.
Proof.
  intros Hi Hj. unfold swapAt. rewrite Hi, Hj.
  pose proof (lookup_lt_Some _ _ _ Hi) as Li.
  pose proof (lookup_lt_Some _ _ _ Hj) as Lj.
  rewrite !length_insert. repeat split.
  - destruct (decide (i = j)) as [->|Hne].
    + rewrite list_lookup_insert_eq by (rewrite length_insert; lia). congruence.
    + rewrite list_lookup_insert_ne by congruence.
      now rewrite list_lookup_insert_eq.
  - now rewrite list_lookup_insert_eq by (rewrite length_insert; lia).
  - intros k Hki Hkj. now rewrite !list_lookup_insert_ne by congruence.
Qed.

Lemma swapAt_involutive {A : Type} (l : list A) (i j : nat) :
  swapAt (swapAt l i j) i j = l.
Proof.
  destruct (l !! i) as [x|] eqn:Hi; [|unfold swapAt; now rewrite Hi, Hi].
  destruct (l !! j) as [y|] eqn:Hj;
    [|unfold swapAt; rewrite Hi, Hj; now rewrite Hi, Hj].
  destruct (swapAt_lookup l i j x y Hi Hj) as (Si & Sj & Slen & Sk).
  destruct (swapAt_lookup (swapAt l i j) i j y x Si Sj) as (Ti & Tj & Tlen & Tk).
  apply list_eq. intros k.
  destruct (decide (k = i)) as [->|Hki]; [congruence|].
  destruct (decide (k = j)) as [->|Hkj]; [congruence|].
  rewrite Tk, Sk by assumption. reflexivity.
Qed.

(** X7. [Swap] at two indices below [Len] exchanges the two buckets, bound
    and cumulative count together, and nothing else: the length and the
    other buckets stay, the pairs (bound, count) are the same multiset, and
    a second [Swap] at the same indices restores the distribution. *)
Theorem distribution_Swap_exchanges (d : distribution) (i j : nat) :
  length (bounds d) = length (values d) ->
  (i < Len d)%nat -> (j < Len d)%nat ->
  Len (Swap d i j) = Len d
  /\ length (bounds (Swap d i j)) = length (values (Swap d i j))
  /\ pairsOf (Swap d i j) !! i = pairsOf d !! j
  /\ pairsOf (Swap d i j) !! j = pairsOf d !! i
  /\ (forall k, k <> i -> k <> j -> pairsOf (Swap d i j) !! k = pairsOf d !! k)
  /\ Permutation (pairsOf d) (pairsOf (Swap d i j))
  /\ Swap (Swap d i j) i j = d.
Proof.
  intros Hpar Hi Hj. simpl in Hi, Hj. unfold distribution_Len in Hi, Hj.
  rewrite <- (ofPairs_pairsOf d Hpar) in Hi, Hj |- *.
  set (z := pairsOf d) in *. unfold ofPairs in Hi, Hj. simpl in Hi, Hj.
  rewrite length_map in Hi, Hj.
  rewrite !Swap_ofPairs, !pairsOf_ofPairs, swapAt_involutive.
  destruct (lookup_lt_is_Some_2 z i Hi) as [x Hx].
  destruct (lookup_lt_is_Some_2 z j Hj) as [y Hy].
  destruct (swapAt_lookup z i j x y Hx Hy) as (Si & Sj & Slen & Sk).
  split; [simpl; unfold distribution_Len, ofPairs; simpl;
          now rewrite !length_map, Slen|].
  split; [apply ofPairs_lengths|].
  split; [congruence|]. split; [congruence|]. split; [exact Sk|].
  split; [apply swapAt_perm | reflexivity].
Qed.

Lemma distribution_Swap_exchanges_witness :
  let d := {| bounds := [Examples.f64 2; Examples.f64 1]; values := [5; 2] |} in
  length (bounds d) = length (values d)
  /\ (0 < Len d)%nat /\ (1 < Len d)%nat
  /\ Swap d 0 1 = {| bounds := [Examples.f64 1; Examples.f64 2]; values := [2; 5] |}
  /\ (Len (Swap d 0 1) = Len d
      /\ length (bounds (Swap d 0 1)) = length (values (Swap d 0 1))
      /\ pairsOf (Swap d 0 1) !! 0%nat = pairsOf d !! 1%nat
      /\ pairsOf (Swap d 0 1) !! 1%nat = pairsOf d !! 0%nat
      /\ (forall k, k <> 0%nat -> k <> 1%nat ->
                    pairsOf (Swap d 0 1) !! k = pairsOf d !! k)
      /\ Permutation (pairsOf d) (pairsOf (Swap d 0 1))
      /\ Swap (Swap d 0 1) 0 1 = d).
Proof.
  intros d.
  assert (H0 : length (bounds d) = length (values d)) by reflexivity.
  assert (H1 : (0 < Len d)%nat) by (simpl; unfold distribution_Len; simpl; lia).
  assert (H2 : (1 < Len d)%nat) by (simpl; unfold distribution_Len; simpl; lia).
  split; [exact H0|]. split; [exact H1|]. split; [exact H2|].
  split; [reflexivity|].
  apply (distribution_Swap_exchanges d 0 1 H0 H1 H2).
Defined.

(* ------------------------------------------------------------------ *)
(** ** What the distribution builder returns and which calls it makes *)

Section BuilderFacts.
Variable ParseFloat : string -> option float64.
Variable sortSwaps : sorter.
Context {D : Type} `{G : seriesGetter D}.
Variables (baseName : string) (matchLset : Labels).

(** X8. [buildDistribution] returns on every stream (it never panics: the
    two scratch arrays stay parallel and [consumed] stays within the
    stream). The remainder is the stream from a position [k] on. With an
    error there is no distribution and [k = 0]: the stream comes back as it
    was. With a distribution there is no error, the reset timestamp is not
    0 and at least one sample was consumed. *)
Theorem buildDistribution_returns_suffix (samples : list RefSample) (d : D) :
  exists v rt rest err d' k,
    run (buildDistribution ParseFloat sortSwaps baseName matchLset samples) d
    = (Some (v, rt, rest, err), d')
    /\ (k <= length samples)%nat
    /\ rest = drop k samples
    /\ (err <> None -> v = None /\ rt = 0 /\ k = 0%nat)
    /\ (v <> None -> err = None /\ rt <> 0 /\ (0 < k)%nat).
Proof.
  destruct (buildDistribution_outcome ParseFloat sortSwaps baseName matchLset
      samples d)
    as (v & rt & rest & err & d' & Hrun & Hout).
  destruct err as [e|].
  - destruct Hout as (-> & -> & Hwalk).
    assert (rt = 0) as ->.
    { unfold buildDistribution in Hrun. rewrite run_bind, Hwalk in Hrun.
      now injection Hrun. }
    exists None, 0, samples, (Some e), d', 0%nat.
    split; [exact Hrun|]. split; [lia|]. split; [reflexivity|].
    split; [auto | congruence].
  - destruct Hout as (k & Hk & -> & Hpos).
    exists v, rt, (drop k samples), None, d', k.
    split; [exact Hrun|]. split; [exact Hk|]. split; [reflexivity|].
    split; [congruence|]. intros Hv. split; [reflexivity|].
    split; [|now apply Hpos].
    destruct v as [dv|]; [|congruence].
    destruct (buildDistribution_emits _ _ _ _ _ _ _ _ _ _ _ Hrun)
      as (st & l & _ & _ & Hreset & _ & _ & -> & _).
    exact Hreset.
Qed.

(** The calls of the first loop. *)
Lemma walk_calls (samples : list RefSample) :
  forall (i : nat) (st : walkState) (d : D),
    Forall (fun c => isRead c = true)
      (calls (walk ParseFloat baseName matchLset i st samples) d)
    /\ (length (calls (walk ParseFloat baseName matchLset i st samples) d)
        <= 2 * length samples)%nat
    /\ match adjustedAt
               (calls (walk ParseFloat baseName matchLset i st samples) d) with
       | [] => True
       | t0 :: more =>
           Forall (eq t0) more /\ ((0 < i)%nat -> t0 = lastTimestamp st)
       end.
Proof.
  induction samples as [|s rest IH]; intros i st d.
  - simpl. repeat split; [constructor | lia].
  - cbn [walk calls]. simpl length.
    destruct (get (Ref s) d) as [[err| |e] d0].
    + simpl. repeat split; [repeat constructor | lia].
    + destruct (IH (S i) (consume st) d0) as (H1 & H2 & H3).
      cbn [adjustedAt length]. repeat split; [now constructor | lia|].
      destruct (adjustedAt _) as [|t0 more]; [exact I|].
      destruct H3 as [H3 H4]. split; [exact H3|]. intros _. apply H4. lia.
    + destruct (negb _ || negb _);
        [simpl; repeat split; [repeat constructor | lia]|].
      destruct ((0 <? i)%nat && negb (T s =? lastTimestamp st)) eqn:Echeck;
        [simpl; repeat split; [repeat constructor | lia]|].
      assert (Hsame : (0 < i)%nat -> T s = lastTimestamp st).
      { intros Hi. apply Nat.ltb_lt in Hi. rewrite Hi in Echeck.
        simpl in Echeck. apply negb_false_iff in Echeck.
        now apply Z.eqb_eq. }
      cbn [calls].
      destruct (getResetAdjusted _ _ _ d0) as [[[rt v] ok] d2].
      cbn [adjustedAt length].
      assert (Hstep : forall st0,
                 lastTimestamp st0 = T s ->
                 Forall (fun c => isRead c = true)
                   (CallGet (Ref s) :: CallGetResetAdjusted (Ref s) (T s) (V s)
                    :: calls (walk ParseFloat baseName matchLset (S i) st0 rest) d2)
                 /\ (S (S (length (calls (walk ParseFloat baseName matchLset
                                            (S i) st0 rest) d2)))
                     <= 2 * S (length rest))%nat
                 /\ (Forall (eq (T s))
                       (adjustedAt (calls (walk ParseFloat baseName matchLset
                                             (S i) st0 rest) d2))
                     /\ ((0 < i)%nat -> T s = lastTimestamp st))).
      { intros st0 H0. destruct (IH (S i) st0 d2) as (H1 & H2 & H3).
        repeat split; [now repeat constructor | lia | | exact Hsame].
        destruct (adjustedAt _) as [|t1 more]; [constructor|].
        destruct H3 as [H3 H4].
        assert (t1 = T s) as -> by (rewrite <- H0; apply H4; lia).
        now constructor. }
      destruct (String.eqb _ metricSuffixSum); [apply Hstep; now destruct ok|].
      destruct (String.eqb _ metricSuffixCount); [apply Hstep; now destruct ok|].
      destruct (String.eqb _ metricSuffixBucket).
      * destruct (ParseFloat _); apply Hstep; now destruct ok.
      * simpl. repeat split; [repeat constructor | lia | constructor
                              | exact Hsame].
Qed.

Lemma buildDistribution_calls (samples : list RefSample) (d : D) :
  calls (buildDistribution ParseFloat sortSwaps baseName matchLset samples) d
  = calls (walk ParseFloat baseName matchLset 0 walkInit samples) d.
Proof.
  unfold buildDistribution. rewrite calls_bind.
  destruct (run (walk _ _ _ _ _ _) d) as [[[e|st]|] d'];
    try (now rewrite app_nil_r).
  destruct (skip st || (resetTimestamp st =? 0)); [now rewrite app_nil_r|].
  destruct (lowerBuckets _ _ _ _); now rewrite app_nil_r.
Qed.

(** X9. [buildDistribution] only reads the directory: every call it makes
    is a lookup or a reset adjustment, never the interval gate and never a
    tracker; it makes at most two calls for each sample of the stream. All
    the samples it passes to [getResetAdjusted], the samples that it takes
    into one distribution, carry one and the same timestamp. *)
Theorem buildDistribution_reads_one_scrape (samples : list RefSample) (d : D) :
  Forall (fun c => isRead c = true)
    (calls
       (buildDistribution ParseFloat sortSwaps baseName matchLset samples) d)
  /\ (length
        (calls
           (buildDistribution ParseFloat sortSwaps baseName matchLset samples)
           d)
      <= 2 * length samples)%nat
  /\ forall t0 more,
       adjustedAt
         (calls (buildDistribution ParseFloat sortSwaps baseName matchLset
             samples) d)
       = t0 :: more ->
       Forall (eq t0) more.
Proof.
  rewrite buildDistribution_calls.
  destruct (walk_calls samples 0%nat walkInit d) as (H1 & H2 & H3).
  split; [exact H1|]. split; [exact H2|].
  intros t0 more E. rewrite E in H3. apply H3.
Qed.
End BuilderFacts.

(* ------------------------------------------------------------------ *)
(** ** From cumulative buckets to bucket counts and bounds *)

Lemma withoutInf_cons (b : float64) (bs : list float64) :
  withoutInf (b :: bs)
  = if F64.IsInf b 1 then withoutInf bs else b :: withoutInf bs.
Proof. unfold withoutInf. simpl. now destruct (F64.IsInf b 1). Qed.

(** The second loop appends the differences of the cumulative counts and
    the bounds that are not [+Inf]. *)
Lemma lowerBuckets_outputs (mean : float64) (bs : list float64) :
  forall (vs : list Z) (l l' : lowering),
    length bs = length vs ->
    lowerBuckets mean bs vs l = Some l' ->
    outValues l' = outValues l ++ deltas (prevVal l) vs
    /\ outBounds l' = outBounds l ++ withoutInf bs.
Proof.
  induction bs as [|b bs IH]; intros [|v vs] l l' Hlen H; try discriminate.
  - injection H as <-. simpl. now rewrite !app_nil_r.
  - simpl in H. injection Hlen as Hlen.
    destruct (IH vs _ _ Hlen H) as [H1 H2].
    rewrite H1, H2, withoutInf_cons. unfold lowerBucket. simpl.
    rewrite <- app_assoc. split; [reflexivity|].
    destruct (F64.IsInf b 1); [reflexivity | now rewrite <- app_assoc].
Qed.

Lemma sumZ_cons (x : Z) (l : list Z) : sumZ (x :: l) = x + sumZ l.
Proof. reflexivity. Qed.

Lemma deltas_prefix_sum (vs : list Z) :
  forall (prev : Z),
    Forall in_int64 vs ->
    forall (i : nat) (c : Z),
      vs !! i = Some c ->
      wrap64 (prev + sumZ (take (S i) (deltas prev vs))) = c.
Proof.
  induction vs as [|v vs IH]; intros prev HF i c Hi; [discriminate|].
  apply Forall_cons in HF as [Hv HF].
  cbn [deltas]. unfold int64_sub.
  destruct (wrap64_congruent (v - prev)) as [k Hk].
  destruct i as [|i].
  - injection Hi as <-.
    change (take 1 (wrap64 (v - prev) :: deltas v vs))
      with [wrap64 (v - prev)].
    rewrite sumZ_cons, Hk.
    replace (prev + (v - prev + k * 2 ^ 64 + sumZ [])) with (v + k * 2 ^ 64)
      by (unfold sumZ; simpl; lia).
    rewrite wrap64_shift. now apply wrap64_small.
  - change (take (S (S i)) (wrap64 (v - prev) :: deltas v vs))
      with (wrap64 (v - prev) :: take (S i) (deltas v vs)).
    rewrite sumZ_cons, Hk.
    replace (prev + (v - prev + k * 2 ^ 64 + sumZ (take (S i) (deltas v vs))))
      with (v + sumZ (take (S i) (deltas v vs)) + k * 2 ^ 64) by lia.
    rewrite wrap64_shift. now apply IH.
Qed.

Lemma deltas_monotone (vs : list Z) :
  forall (prev : Z),
    0 <= prev ->
    Forall in_int64 vs ->
    (forall c, vs !! 0%nat = Some c -> prev <= c) ->
    (forall i x y, vs !! i = Some x -> vs !! S i = Some y -> x <= y) ->
    Forall (fun n => 0 <= n) (deltas prev vs)
    /\ forall (i : nat) (c : Z),
         vs !! i = Some c -> prev + sumZ (take (S i) (deltas prev vs)) = c.
Proof.
  induction vs as [|v vs IH]; intros prev Hprev HF Hfirst Hchain;
    [split; [constructor | discriminate]|].
  apply Forall_cons in HF as [Hv HF].
  assert (Hpv : prev <= v) by now apply Hfirst.
  assert (Hd : int64_sub v prev = v - prev).
  { unfold int64_sub. apply wrap64_small. unfold in_int64 in *. lia. }
  destruct (IH v ltac:(lia) HF) as [IH1 IH2].
  { intros c Hc. now apply (Hchain 0%nat v c). }
  { intros i x y Hx Hy. now apply (Hchain (S i) x y). }
  cbn [deltas]. rewrite Hd. split; [constructor; [lia | exact IH1]|].
  intros [|i] c Hi.
  - injection Hi as <-.
    change (take 1 (v - prev :: deltas v vs)) with [v - prev].
    unfold sumZ. simpl. lia.
  - change (take (S (S i)) (v - prev :: deltas v vs))
      with (v - prev :: take (S i) (deltas v vs)).
    rewrite sumZ_cons. specialize (IH2 i c Hi). lia.
Qed.

Lemma withoutInf_perm (a b : list float64) :
  Permutation a b -> Permutation (withoutInf a) (withoutInf b).
Proof.
  unfold withoutInf. induction 1 as [|x a b _ IH|x y a|a b c _ IH1 _ IH2].
  - reflexivity.
  - simpl. destruct (negb (F64.IsInf x 1)); [now apply perm_skip | exact IH].
  - simpl. destruct (negb (F64.IsInf x 1)), (negb (F64.IsInf y 1));
      try reflexivity. apply perm_swap.
  - exact (Permutation_trans IH1 IH2).
Qed.

Lemma nonDecreasing_cons (x : float64) (l : list float64) :
  nonDecreasing (x :: l)
  <-> Forall (fun y => F64.leb x y = true) l /\ nonDecreasing l.
Proof.
  split.
  - intros H. split.
    + apply Forall_lookup. intros i y Hy.
      apply (H 0%nat (S i) x y); [lia | reflexivity | exact Hy].
    + intros i j a b Hij Ha Hb.
      apply (H (S i) (S j) a b); [lia | exact Ha | exact Hb].
  - intros [Hx Hl] i j a b Hij Ha Hb.
    destruct j as [|j]; [lia|]. destruct i as [|i].
    + injection Ha as <-.
      exact (proj1 (Forall_lookup _ _) Hx _ _ Hb).
    + apply (Hl i j a b); [lia | exact Ha | exact Hb].
Qed.

(** Leaving out the [+Inf] bounds keeps the order. *)
Lemma nonDecreasing_withoutInf (l : list float64) :
  nonDecreasing l -> nonDecreasing (withoutInf l).
Proof.
  induction l as [|x l IH]; intros H; [exact H|].
  apply nonDecreasing_cons in H as [Hx Hl].
  rewrite withoutInf_cons. destruct (F64.IsInf x 1); [now apply IH|].
  apply nonDecreasing_cons. split; [|now apply IH].
  unfold withoutInf. apply List.Forall_forall. intros y Hy.
  apply List.filter_In in Hy as [Hy _].
  exact (proj1 (List.Forall_forall _ _) Hx _ Hy).
Qed.

Section EmittedBuckets.
Variable ParseFloat : string -> option float64.
Variable sortSwaps : sorter.
Context {D : Type} `{G : seriesGetter D}.
Variables (baseName : string) (matchLset : Labels).

(** An emitted distribution in terms of the sorted scratch distribution. *)
Lemma buildDistribution_buckets (samples : list RefSample) (d d' : D)
    (v : Distribution) (rt : Z) (rest : list RefSample) (err : option error) :
  run (buildDistribution ParseFloat sortSwaps baseName matchLset samples) d
  = (Some (Some v, rt, rest, err), d') ->
  exists st,
    run (walk ParseFloat baseName matchLset 0 walkInit samples) d
    = (Some (WalkDone st), d')
    /\ BucketCounts v = deltas 0 (values (Sort sortSwaps (dist st)))
    /\ Bounds v = withoutInf (bounds (Sort sortSwaps (dist st)))
    /\ Forall in_int64 (values (Sort sortSwaps (dist st)))
    /\ length (bounds (dist st)) = length (values (dist st)).
Proof.
  intros Hrun.
  destruct (buildDistribution_emits _ _ _ _ _ _ _ _ _ _ _ Hrun)
    as (st & l & Hwalk & _ & _ & Hlower & -> & _).
  exists st. simpl. split; [exact Hwalk|].
  pose proof (walk_parallel _ _ _ _ _ _ _ Hwalk) as Hpar.
  destruct (Sort_distribution_pairs sortSwaps (dist st) Hpar) as
      (Hperm & Hpar').
  destruct (lowerBuckets_outputs _ _ _ _ _ Hpar' Hlower) as [H1 H2].
  split; [exact H1|]. split; [exact H2|]. split.
  - assert (Hrange : Forall in_int64 (values (dist st))).
    { revert Hwalk.
      apply (walk_invariant _ _ _ (fun st => Forall in_int64 (values (dist st))));
        try (intros; assumption); [|constructor].
      intros st0 u x H. simpl. apply Forall_app. split; [exact H|].
      constructor; [apply to_int64_range | constructor]. }
    rewrite (values_as_pairs _ Hpar'). rewrite (values_as_pairs _ Hpar) in Hrange.
    revert Hrange. apply Permutation_Forall, Permutation_map, Hperm.
  - exact Hpar.
Qed.

(** X10. The bucket counts of an emitted distribution are the differences
    of the cumulative counts in sorted order, so nothing is lost: the
    [int64] sum of the first [i + 1] bucket counts is the cumulative count
    of the [i]-th bucket. *)
Theorem buildDistribution_counts_round_trip (samples : list RefSample)
    (d d' : D) (v : Distribution) (rt : Z) (rest : list RefSample)
    (err : option error) :
  run (buildDistribution ParseFloat sortSwaps baseName matchLset samples) d
  = (Some (Some v, rt, rest, err), d') ->
  exists st,
    run (walk ParseFloat baseName matchLset 0 walkInit samples) d
    = (Some (WalkDone st), d')
    /\ BucketCounts v = deltas 0 (values (Sort sortSwaps (dist st)))
    /\ forall (i : nat) (c : Z),
         values (Sort sortSwaps (dist st)) !! i = Some c ->
         wrap64 (sumZ (take (S i) (BucketCounts v))) = c.
Proof.
  intros Hrun.
  destruct (buildDistribution_buckets _ _ _ _ _ _ _ Hrun)
    as (st & Hwalk & Hcounts & _ & Hrange & _).
  exists st. split; [exact Hwalk|]. split; [exact Hcounts|].
  intros i c Hi. rewrite Hcounts.
  exact (deltas_prefix_sum _ 0 Hrange i c Hi).
Qed.

(** X11. When the cumulative counts in sorted order start at a
    non-negative count and never decrease (a well-formed histogram), no
    bucket count of the emitted distribution is negative and no
    subtraction wraps around: the plain sum of the first [i + 1] bucket
    counts is the cumulative count of the [i]-th bucket. *)
Theorem buildDistribution_counts_nonnegative (samples : list RefSample)
    (d d' : D) (v : Distribution) (rt : Z) (rest : list RefSample)
    (err : option error) (st : walkState) :
  run (buildDistribution ParseFloat sortSwaps baseName matchLset samples) d
  = (Some (Some v, rt, rest, err), d') ->
  run (walk ParseFloat baseName matchLset 0 walkInit samples) d
  = (Some (WalkDone st), d') ->
  (forall c, values (Sort sortSwaps (dist st)) !! 0%nat = Some c -> 0 <= c) ->
  (forall i x y, values (Sort sortSwaps (dist st)) !! i = Some x ->
                 values (Sort sortSwaps (dist st)) !! S i = Some y -> x <= y) ->
  Forall (fun n => 0 <= n) (BucketCounts v)
  /\ forall (i : nat) (c : Z),
       values (Sort sortSwaps (dist st)) !! i = Some c ->
       sumZ (take (S i) (BucketCounts v)) = c.
Proof.
  intros Hrun Hwalk Hfirst Hchain.
  destruct (buildDistribution_buckets _ _ _ _ _ _ _ Hrun)
    as (st' & Hwalk' & Hcounts & _ & Hrange & _).
  assert (st' = st) as -> by congruence.
  rewrite Hcounts.
  destruct (deltas_monotone _ 0 ltac:(lia) Hrange Hfirst Hchain) as [H1 H2].
  split; [exact H1|]. intros i c Hi. specialize (H2 i c Hi). lia.
Qed.

(** X12. The explicit bounds of an emitted distribution are the gathered
    bounds, in the order [sort.Sort] leaves them, without the [+Inf] ones:
    no emitted bound is [+Inf], and every other gathered bound is emitted
    as often as it was gathered. When no gathered bound is NaN and
    [sort.Sort] keeps its promise for transitive orderings, a result that
    [sort.IsSorted] accepts, the emitted bounds are in ascending order:
    each is [<=] every bound after it. *)
Theorem buildDistribution_bounds_ascending (samples : list RefSample)
    (d d' : D) (v : Distribution) (rt : Z) (rest : list RefSample)
    (err : option error) :
  run (buildDistribution ParseFloat sortSwaps baseName matchLset samples) d
  = (Some (Some v, rt, rest, err), d') ->
  exists st,
    run (walk ParseFloat baseName matchLset 0 walkInit samples) d
    = (Some (WalkDone st), d')
    /\ Bounds v = withoutInf (bounds (Sort sortSwaps (dist st)))
    /\ Forall (fun b => F64.IsInf b 1 = false) (Bounds v)
    /\ Permutation (Bounds v) (withoutInf (bounds (dist st)))
    /\ (noNaN (bounds (dist st)) ->
        (transitiveOrdering (dist st) ->
         IsSorted (Sort sortSwaps (dist st)) = true) ->
        nonDecreasing (Bounds v)).
Proof.
  intros Hrun.
  destruct (buildDistribution_buckets _ _ _ _ _ _ _ Hrun)
    as (st & Hwalk & _ & Hbounds & _ & Hpar).
  destruct (Sort_distribution_pairs sortSwaps (dist st) Hpar) as
      (Hperm & Hpar').
  exists st. split; [exact Hwalk|]. split; [exact Hbounds|].
  rewrite Hbounds. split; [|split].
  - unfold withoutInf. apply List.Forall_forall. intros b Hb.
    apply List.filter_In in Hb as [_ Hb]. now apply negb_true_iff.
  - apply withoutInf_perm.
    rewrite (bounds_as_pairs _ Hpar), (bounds_as_pairs _ Hpar').
    symmetry. apply Permutation_map, Hperm.
  - intros Hn Hpromise. apply nonDecreasing_withoutInf.
    apply IsSorted_nonDecreasing; [now apply Sort_noNaN|].
    apply Hpromise, noNaN_transitiveOrdering, Hn.
Qed.
End EmittedBuckets.

Lemma buildDistribution_counts_round_trip_witness :
  exists v d',
    run (buildDistribution parseLe shortSort "foo" Examples.histLset
        Examples.histStream)
        Examples.histDir
    = (Some (Some v, 500, [], None), d')
    /\ BucketCounts v = [2; 3; 2]
    /\ exists st,
         run (walk parseLe "foo" Examples.histLset 0 walkInit Examples.histStream)
             Examples.histDir
         = (Some (WalkDone st), d')
         /\ BucketCounts v = deltas 0 (values (Sort shortSort (dist st)))
         /\ forall (i : nat) (c : Z),
              values (Sort shortSort (dist st)) !! i = Some c ->
              wrap64 (sumZ (take (S i) (BucketCounts v))) = c.
Proof.
  eexists _, _.
  match goal with
  | |- ?A /\ _ => assert (Hrun : A) by (vm_compute; reflexivity)
  end.
  split; [exact Hrun|]. split; [reflexivity|].
  exact (buildDistribution_counts_round_trip parseLe shortSort "foo"
      Examples.histLset
           Examples.histStream Examples.histDir _ _ 500 [] None Hrun).
Defined.

Lemma buildDistribution_counts_nonnegative_witness :
  exists v d' st,
    run (buildDistribution parseLe shortSort "foo" Examples.histLset
        Examples.histStream)
        Examples.histDir
    = (Some (Some v, 500, [], None), d')
    /\ run (walk parseLe "foo" Examples.histLset 0 walkInit Examples.histStream)
           Examples.histDir
       = (Some (WalkDone st), d')
    /\ values (Sort shortSort (dist st)) = [2; 5; 7]
    /\ (forall c, values (Sort shortSort (dist st)) !! 0%nat = Some c -> 0 <= c)
    /\ (forall i x y, values (Sort shortSort (dist st)) !! i = Some x ->
                      values (Sort shortSort (dist st)) !! S i = Some y -> x <=
                          y)
    /\ (Forall (fun n => 0 <= n) (BucketCounts v)
        /\ forall (i : nat) (c : Z),
             values (Sort shortSort (dist st)) !! i = Some c ->
             sumZ (take (S i) (BucketCounts v)) = c).
Proof.
  eexists _, _, _.
  match goal with
  | |- ?A /\ _ => assert (Hrun : A) by (vm_compute; reflexivity)
  end.
  split; [exact Hrun|].
  match goal with
  | |- ?A /\ _ => assert (Hwalk : A) by (vm_compute; reflexivity)
  end.
  split; [exact Hwalk|].
  match goal with
  | |- ?A /\ _ => assert (Hvals : A) by (vm_compute; reflexivity)
  end.
  split; [exact Hvals|].
  match goal with
  | |- ?A /\ _ =>
      assert (Hfirst : A) by (rewrite Hvals; clear; intros c [= <-]; lia)
  end.
  split; [exact Hfirst|].
  match goal with
  | |- ?A /\ _ =>
      assert (Hchain : A)
        by (rewrite Hvals; clear; intros [|[|[|i]]] x y Hx Hy;
            simpl in Hx, Hy; try discriminate Hx; try discriminate Hy;
            injection Hx as <-; injection Hy as <-; lia)
  end.
  split; [exact Hchain|].
  exact (buildDistribution_counts_nonnegative parseLe shortSort "foo"
      Examples.histLset
           Examples.histStream Examples.histDir _ _ 500 [] None _
           Hrun Hwalk Hfirst Hchain).
Defined.

Lemma buildDistribution_bounds_ascending_witness :
  exists v d',
    run (buildDistribution parseLe shortSort "foo" Examples.histLset
        Examples.histStream)
        Examples.histDir
    = (Some (Some v, 500, [], None), d')
    /\ Bounds v = [Examples.f64 1; Examples.f64 2]
    /\ exists st,
         run (walk parseLe "foo" Examples.histLset 0 walkInit Examples.histStream)
             Examples.histDir
         = (Some (WalkDone st), d')
         /\ Bounds v = withoutInf (bounds (Sort shortSort (dist st)))
         /\ Forall (fun b => F64.IsInf b 1 = false) (Bounds v)
         /\ Permutation (Bounds v) (withoutInf (bounds (dist st)))
         /\ (noNaN (bounds (dist st)) ->
             (transitiveOrdering (dist st) ->
              IsSorted (Sort shortSort (dist st)) = true) ->
             nonDecreasing (Bounds v)).
Proof.
  eexists _, _.
  match goal with
  | |- ?A /\ _ => assert (Hrun : A) by (vm_compute; reflexivity)
  end.
  split; [exact Hrun|]. split; [reflexivity|].
  exact (buildDistribution_bounds_ascending parseLe shortSort "foo"
      Examples.histLset
           Examples.histStream Examples.histDir _ _ 500 [] None Hrun).
Defined.

(* ------------------------------------------------------------------ *)
(** ** The results of [next] *)

Section NextResults.
Variable ParseFloat : string -> option float64.
Variable sortSwaps : sorter.
Context {D : Type} `{G : seriesGetter D}.

(** Without a point, the hash that [next] returns is 0. *)
Lemma next_no_point_hash (sample : RefSample) (tailSamples : list RefSample)
    (d d' : D) (h : Z) (rest : list RefSample) (err : option error) :
  run (next ParseFloat sortSwaps (sample :: tailSamples)) d
  = (Some (None, h, rest, err), d') ->
  h = 0.
Proof.
  unfold next. destruct (F64.IsNaN (V sample)); [now intros [= <- _ _ _]|].
  rewrite run_bind. unfold series_get at 1. cbn [run].
  destruct (get (Ref sample) d) as [r d1].
  destruct r as [e| |entry]; cbv iota beta;
    try (simpl; now intros [= <- _ _ _]).
  rewrite run_bind.
  destruct (run _ d1) as [[[]|] d2]; [|discriminate].
  destruct (negb (exported entry)); [now intros [= <- _ _ _]|].
  rewrite run_bind.
  destruct (run (dispatch _ _ _ _ _ _) d2) as [[b|] d3]; [|discriminate].
  destruct b as [rest0 err0|rt startTime value tl]; [now intros [= <- _ _ _]|].
  rewrite run_bind. unfold series_updateSampleInterval. cbn [run].
  destruct (updateSampleInterval _ _ _ d3) as [ok d4].
  destruct ok; simpl; [discriminate | now intros [= <- _ _ _]].
Qed.

(** X13. [next] returns on every non-empty stream, and the remainder is
    the stream from a position [k] on. A point comes without an error,
    with the remainder strictly shorter than the stream; without a point
    the returned hash is 0; with an error there is no point and at most
    the first sample is gone. *)
Theorem next_returns_suffix (sample : RefSample) (tailSamples : list RefSample)
    (d : D) :
  exists ts h rest err d' k,
    run (next ParseFloat sortSwaps (sample :: tailSamples)) d
    = (Some (ts, h, rest, err), d')
    /\ (k <= S (length tailSamples))%nat
    /\ rest = drop k (sample :: tailSamples)
    /\ (ts <> None -> err = None /\ (0 < k)%nat)
    /\ (ts = None -> h = 0)
    /\ (err <> None -> ts = None /\ (k <= 1)%nat).
Proof.
  destruct (next_outcome ParseFloat sortSwaps sample tailSamples d)
    as (ts & h & rest & err & d' & Hrun & Hout).
  assert (Hhash : ts = None -> h = 0).
  { intros ->. exact (next_no_point_hash _ _ _ _ _ _ _ Hrun). }
  destruct err as [e|].
  - destruct Hout as (Hts & _ & Hcase).
    assert (Hk : exists k, (k <= 1)%nat /\ rest = drop k (sample :: tailSamples)).
    { destruct Hcase as [(e0 & d1 & _ & _ & ->)
                        | (entry & d1 & _ & _ & [[-> _] | (_ & -> & _)])];
        [exists 0%nat | exists 1%nat | exists 0%nat]; split; auto. }
    destruct Hk as (k & Hk & Hrest).
    exists ts, h, rest, (Some e), d', k.
    split; [exact Hrun|]. split; [lia|]. split; [exact Hrest|].
    split; [congruence|]. split; [exact Hhash|]. auto.
  - destruct Hout as (k & Hk & Hrest & Hpos).
    exists ts, h, rest, None, d', k.
    split; [exact Hrun|]. split; [exact Hk|]. split; [exact Hrest|].
    split; [|split; [exact Hhash | congruence]].
    intros Hts. split; [reflexivity|].
    destruct Hpos as [Hpos | [Hnone _]]; [exact Hpos | congruence].
Qed.

(** X14. An error of [next] is one of three kinds. The lookup of the first
    sample failed: the error wraps the lookup error and the whole stream
    comes back. Or the entry is exported and is a summary whose suffix is
    none of [_sum], [_count] and the empty one, or its metric type is none
    of the five known ones: the remainder is the stream without its first
    sample. Or the entry is an exported histogram and a lookup inside the
    distribution builder failed: the error is that lookup error, unwrapped,
    and the whole stream comes back. In each case there is no point and the
    hash is 0. *)
Theorem next_error_cases (sample : RefSample) (tailSamples : list RefSample)
    (d d' : D) (ts : option TimeSeries) (h : Z) (rest : list RefSample)
    (e : error) :
  run (next ParseFloat sortSwaps (sample :: tailSamples)) d
  = (Some (ts, h, rest, Some e), d') ->
  ts = None /\ h = 0
  /\ ((exists e0 d1,
         get (Ref sample) d = (GetError e0, d1)
         /\ e = Wrap e0 "get series information"
         /\ rest = sample :: tailSamples)
      \/ exists entry d1,
           get (Ref sample) d = (GetHit entry, d1)
           /\ exported entry = true
           /\ ((rest = tailSamples
                /\ metricType (metadata entry) = MetricTypeSummary
                /\ suffix entry <> metricSuffixSum
                /\ suffix entry <> metricSuffixCount
                /\ suffix entry <> ""
                /\ e = Errorf "unexpected metric name suffix %q" (suffix entry))
               \/ (rest = tailSamples
                   /\ exists name,
                        metricType (metadata entry) = MetricTypeOther name
                        /\ e = Errorf "unexpected metric type %s" name)
               \/ (rest = sample :: tailSamples
                   /\ metricType (metadata entry) = MetricTypeHistogram
                   /\ exists s d2 d3,
                        In s (sample :: tailSamples)
                        /\ get (Ref s) d2 = (GetError e, d3)))).
Proof.
  intros Hrun.
  destruct (next_outcome ParseFloat sortSwaps sample tailSamples d)
    as (ts0 & h0 & rest0 & err0 & d0 & Hrun0 & Hout).
  rewrite Hrun in Hrun0. injection Hrun0 as <- <- <- <- <-.
  destruct Hout as (Hts & Hh & Hcase).
  split; [exact Hts|]. split; [exact Hh|].
  destruct Hcase as [Hlookup | (entry & d1 & Hget & Hexp & Hcase)];
    [left; exact Hlookup|].
  right. exists entry, d1. split; [exact Hget|]. split; [exact Hexp|].
  destruct Hcase as [[Hrest [Hsummary | Hother]] | (Htype & Hrest & d2 & Hwalk)].
  - left. tauto.
  - right. left. auto.
  - right. right. split; [exact Hrest|]. split; [exact Htype|].
    destruct (walk_error_is_lookup _ _ _ _ _ _ _ _ _ Hwalk)
      as (s & d3 & Hin & Hget3).
    exists s, d3, d'. auto.
Qed.
End NextResults.

Lemma next_error_cases_witness :
  exists d',
    run (next parseLe shortSort Examples.summaryStream) Examples.summaryDir
    = (Some (None, 0, [mkSample 2 1000 (Examples.f64 42)],
             Some (Errorf "unexpected metric name suffix %q" "_bucket")), d')
    /\ (@None TimeSeries = None /\ 0 = 0
        /\ ((exists e0 d1,
               get (Ref (mkSample 1 1000 (Examples.f64 3))) Examples.summaryDir
               = (GetError e0, d1)
               /\ Errorf "unexpected metric name suffix %q" "_bucket"
                  = Wrap e0 "get series information"
               /\ [mkSample 2 1000 (Examples.f64 42)]
                  = mkSample 1 1000 (Examples.f64 3)
                    :: [mkSample 2 1000 (Examples.f64 42)])
            \/ exists entry d1,
                 get (Ref (mkSample 1 1000 (Examples.f64 3))) Examples.summaryDir
                 = (GetHit entry, d1)
                 /\ exported entry = true
                 /\ (([mkSample 2 1000 (Examples.f64 42)]
                      = [mkSample 2 1000 (Examples.f64 42)]
                      /\ metricType (metadata entry) = MetricTypeSummary
                      /\ suffix entry <> metricSuffixSum
                      /\ suffix entry <> metricSuffixCount
                      /\ suffix entry <> ""
                      /\ Errorf "unexpected metric name suffix %q" "_bucket"
                         = Errorf "unexpected metric name suffix %q"
                             (suffix entry))
                     \/ ([mkSample 2 1000 (Examples.f64 42)]
                         = [mkSample 2 1000 (Examples.f64 42)]
                         /\ exists name,
                              metricType (metadata entry) = MetricTypeOther name
                              /\ Errorf "unexpected metric name suffix %q"
                                    "_bucket"
                                 = Errorf "unexpected metric type %s" name)
                     \/ ([mkSample 2 1000 (Examples.f64 42)]
                         = mkSample 1 1000 (Examples.f64 3)
                           :: [mkSample 2 1000 (Examples.f64 42)]
                         /\ metricType (metadata entry) = MetricTypeHistogram
                         /\ exists s d2 d3,
                              In s (mkSample 1 1000 (Examples.f64 3)
                                    :: [mkSample 2 1000 (Examples.f64 42)])
                              /\ get (Ref s) d2
                                 = (GetError
                                      (Errorf "unexpected metric name suffix %q"
                                         "_bucket"), d3))))).
Proof.
  eexists.
  match goal with
  | |- ?A /\ _ => assert (Hrun : A) by (vm_compute; reflexivity)
  end.
  split; [exact Hrun|].
  exact (next_error_cases parseLe shortSort (mkSample 1 1000 (Examples.f64 3))
           [mkSample 2 1000 (Examples.f64 42)] Examples.summaryDir _ None 0
           [mkSample 2 1000 (Examples.f64 42)]
           (Errorf "unexpected metric name suffix %q" "_bucket") Hrun).
Defined.

(* ------------------------------------------------------------------ *)
(** ** The emitted point and the calls of [next] *)

Section NextPoint.
Variable ParseFloat : string -> option float64.
Variable sortSwaps : sorter.
Context {D : Type} `{G : seriesGetter D}.

Lemma adjusted_built (sample : RefSample) (tailSamples : list RefSample)
    (mk : float64 -> TypedValue) (d d' : D) (rt : Z)
    (start : option Timestamp) (value : TypedValue) (rest : list RefSample) :
  run (adjusted sample tailSamples mk) d
  = (Some (Built rt start value rest), d') ->
  exists v,
    getResetAdjusted (Ref sample) (T sample) (V sample) d = ((rt, v, true), d')
    /\ start = Some (getTimestamp rt) /\ value = mk v /\ rest = tailSamples.
Proof.
  unfold adjusted. rewrite run_bind. unfold series_getResetAdjusted.
  cbn [run].
  destruct (getResetAdjusted _ _ _ d) as [[[rt0 v] ok] d0].
  destruct ok; simpl; [|discriminate].
  intros [= <- <- <- <- <-]. exists v. auto.
Qed.

(** The point that the dispatch builds, by the kind of the series. *)
Lemma dispatch_built (entry : seriesCacheEntry) (sample : RefSample)
    (tailSamples : list RefSample) (d d' : D) (rt : Z)
    (start : option Timestamp) (value : TypedValue) (rest : list RefSample) :
  run (dispatch ParseFloat sortSwaps entry sample (sample :: tailSamples)
      tailSamples) d
  = (Some (Built rt start value rest), d') ->
  start = (if cumulativeSeries entry then Some (getTimestamp rt) else None)
  /\ match metricType (metadata entry) with
     | MetricTypeHistogram =>
         exists dv,
           value = DistributionValue dv
           /\ run (buildDistribution ParseFloat sortSwaps
               (Metric (metadata entry))
                     (lset entry) (sample :: tailSamples)) d
              = (Some (Some dv, rt, rest, None), d')
     | MetricTypeSummary =>
         rest = tailSamples
         /\ if cumulativeSeries entry
            then exists v,
                   getResetAdjusted (Ref sample) (T sample) (V sample) d
                   = ((rt, v, true), d')
                   /\ value = (if String.eqb (suffix entry) metricSuffixSum
                               then DoubleValue v
                               else Int64Value (F64.to_int64 v))
            else suffix entry = "" /\ rt = 0 /\ d' = d
                 /\ value = DoubleValue (V sample)
     | MetricTypeCounter =>
         rest = tailSamples
         /\ exists v,
              getResetAdjusted (Ref sample) (T sample) (V sample) d
              = ((rt, v, true), d')
              /\ value = buildTypedValue (valueType (metadata entry)) v
     | _ =>
         rest = tailSamples /\ rt = 0 /\ d' = d
         /\ value = buildTypedValue (valueType (metadata entry)) (V sample)
     end.
Proof.
  unfold dispatch, cumulativeSeries.
  destruct (metricType (metadata entry)) as [| | | | |name].
  - intros H. apply adjusted_built in H as (v & Hget & -> & -> & ->).
    split; [reflexivity|]. split; [reflexivity|]. exists v. auto.
  - intros [= <- <- <- <- <-]. simpl. repeat split.
  - rewrite run_bind.
    destruct (run (buildDistribution _ _ _ _ _) d)
      as [[[[[dv rt0] rest0] err0]|] d0]; [|discriminate].
    destruct dv as [dv|]; [|discriminate].
    destruct err0 as [e|]; [discriminate|].
    intros [= <- <- <- <- <-]. split; [reflexivity|]. exists dv. auto.
  - destruct (String.eqb (suffix entry) metricSuffixSum) eqn:Esum.
    { intros H. apply adjusted_built in H as (v & Hget & -> & -> & ->).
      split; [reflexivity|]. split; [reflexivity|]. exists v. auto. }
    destruct (String.eqb (suffix entry) metricSuffixCount) eqn:Ecount.
    { intros H. apply adjusted_built in H as (v & Hget & -> & -> & ->).
      split; [reflexivity|]. split; [reflexivity|]. exists v. auto. }
    destruct (String.eqb (suffix entry) "") eqn:Eempty; [|discriminate].
    intros [= <- <- <- <- <-]. apply String.eqb_eq in Eempty. simpl.
    repeat split; auto.
  - intros [= <- <- <- <- <-]. simpl. repeat split.
  - discriminate.
Qed.

(** X15. A time series that [next] emits is the template of the looked-up
    entry, which is exported, with one point appended, and comes with the
    hash of the entry. The point has the end time of the first sample and a
    value. It has a start time exactly when the series is cumulative (a
    counter, the [_sum] or [_count] of a summary, a histogram). The value
    of a series that is not cumulative is built from the value of the
    sample itself; the value of a histogram is a distribution; the others
    are built from the reset-adjusted value. *)
Theorem next_emitted_point (sample : RefSample) (tailSamples : list RefSample)
    (d d' : D) (ts : TimeSeries) (h : Z) (rest : list RefSample)
    (err : option error) :
  run (next ParseFloat sortSwaps (sample :: tailSamples)) d
  = (Some (Some ts, h, rest, err), d') ->
  exists entry d1 point value,
    get (Ref sample) d = (GetHit entry, d1)
    /\ exported entry = true /\ h = hash entry /\ err = None
    /\ ts = mkTimeSeries (SeriesMetricType (proto entry))
              (SeriesMetricLabels (proto entry))
              (SeriesResourceType (proto entry))
              (SeriesResourceLabels (proto entry))
              (SeriesMetricKind (proto entry)) (SeriesValueType (proto entry))
              (Points (proto entry) ++ [point])
    /\ EndTime (Interval point) = Some (getTimestamp (T sample))
    /\ PointValue point = Some value
    /\ (StartTime (Interval point) = None <-> cumulativeSeries entry = false)
    /\ (cumulativeSeries entry = false ->
        rest = tailSamples
        /\ value = match metricType (metadata entry) with
                   | MetricTypeSummary => DoubleValue (V sample)
                   | _ => buildTypedValue (valueType (metadata entry)) (V sample)
                   end)
    /\ (metricType (metadata entry) = MetricTypeHistogram ->
        exists dv rt d2 d3,
          value = DistributionValue dv
          /\ run (buildDistribution ParseFloat sortSwaps
              (Metric (metadata entry))
                    (lset entry) (sample :: tailSamples)) d2
             = (Some (Some dv, rt, rest, None), d3)
          /\ StartTime (Interval point) = Some (getTimestamp rt))
    /\ (cumulativeSeries entry = true ->
        metricType (metadata entry) <> MetricTypeHistogram ->
        rest = tailSamples
        /\ exists rt v d2 d3,
             getResetAdjusted (Ref sample) (T sample) (V sample) d2
             = ((rt, v, true), d3)
             /\ StartTime (Interval point) = Some (getTimestamp rt)
             /\ (value = buildTypedValue (valueType (metadata entry)) v
                 \/ value = DoubleValue v
                 \/ value = Int64Value (F64.to_int64 v))).
Proof.
  unfold next. destruct (F64.IsNaN (V sample)); [discriminate|].
  rewrite run_bind. unfold series_get at 1. cbn [run].
  destruct (get (Ref sample) d) as [r d1] eqn:Eget.
  destruct r as [e| |entry]; cbv iota beta; try (simpl; discriminate).
  rewrite run_bind.
  destruct (run _ d1) as [[[]|] d2]; [|discriminate].
  destruct (exported entry) eqn:Eexp; simpl negb; cbv iota; [|discriminate].
  rewrite run_bind.
  destruct (run (dispatch _ _ _ _ _ _) d2) as [[b|] d3] eqn:Edispatch;
    [|discriminate].
  destruct b as [rest0 err0|rt startTime value tl]; [discriminate|].
  rewrite run_bind. unfold series_updateSampleInterval. cbn [run].
  destruct (updateSampleInterval _ _ _ d3) as [ok d4].
  destruct ok; simpl; [|discriminate].
  intros [= <- <- <- <- <-].
  apply dispatch_built in Edispatch as [Hstart Hkind].
  eexists entry, d1, _, value.
  split; [reflexivity|]. split; [exact Eexp|]. split; [reflexivity|].
  split; [reflexivity|]. split; [reflexivity|]. split; [reflexivity|].
  split; [reflexivity|]. simpl. rewrite Hstart.
  split; [destruct (cumulativeSeries entry); split; congruence|].
  unfold cumulativeSeries in *.
  destruct (metricType (metadata entry)) as [| | | | |name].
  - destruct Hkind as (-> & v & Hget & ->).
    split; [discriminate|]. split; [discriminate|]. intros _ _.
    split; [reflexivity|]. exists rt, v, d2, d3. auto.
  - destruct Hkind as (-> & -> & -> & ->).
    split; [auto|]. split; [discriminate | discriminate].
  - destruct Hkind as (dv & -> & Hbuild).
    split; [discriminate|]. split; [|congruence].
    intros _. exists dv, rt, d2, d3. auto.
  - destruct Hkind as (-> & Hkind). split; [|split; [discriminate|]].
    + intros Hc. rewrite Hc in Hkind.
      destruct Hkind as (_ & _ & _ & ->). auto.
    + intros Hc _. rewrite Hc in Hkind |- *. destruct Hkind as (v & Hget & ->).
      split; [reflexivity|]. exists rt, v, d2, d3.
      split; [exact Hget|]. split; [reflexivity|].
      destruct (String.eqb (suffix entry) metricSuffixSum); auto.
  - destruct Hkind as (-> & -> & -> & ->).
    split; [auto|]. split; [discriminate | discriminate].
  - destruct Hkind as (-> & -> & -> & ->).
    split; [auto|]. split; [discriminate | discriminate].
Qed.
End NextPoint.

Lemma next_emitted_point_witness :
  exists ts d',
    run (next parseLe shortSort Examples.gaugeStream) Examples.gaugeDir
    = (Some (Some ts, 11, [], None), d')
    /\ exists entry d1 point value,
         get (Ref (mkSample 1 1500 (Examples.f64 42))) Examples.gaugeDir
         = (GetHit entry, d1)
         /\ exported entry = true /\ 11 = hash entry /\ @None error = None
         /\ ts = mkTimeSeries (SeriesMetricType (proto entry))
                   (SeriesMetricLabels (proto entry))
                   (SeriesResourceType (proto entry))
                   (SeriesResourceLabels (proto entry))
                   (SeriesMetricKind (proto entry))
                   (SeriesValueType (proto entry))
                   (Points (proto entry) ++ [point])
         /\ EndTime (Interval point)
            = Some (getTimestamp (T (mkSample 1 1500 (Examples.f64 42))))
         /\ PointValue point = Some value
         /\ (StartTime (Interval point) = None
             <-> cumulativeSeries entry = false)
         /\ (cumulativeSeries entry = false ->
             ([] : list RefSample) = []
             /\ value = match metricType (metadata entry) with
                        | MetricTypeSummary =>
                            DoubleValue (V (mkSample 1 1500 (Examples.f64 42)))
                        | _ =>
                            buildTypedValue (valueType (metadata entry))
                              (V (mkSample 1 1500 (Examples.f64 42)))
                        end)
         /\ (metricType (metadata entry) = MetricTypeHistogram ->
             exists dv rt d2 d3,
               value = DistributionValue dv
               /\ run (buildDistribution parseLe shortSort
                   (Metric (metadata entry))
                         (lset entry)
                         (mkSample 1 1500 (Examples.f64 42) :: [])) d2
                  = (Some (Some dv, rt, [], None), d3)
               /\ StartTime (Interval point) = Some (getTimestamp rt))
         /\ (cumulativeSeries entry = true ->
             metricType (metadata entry) <> MetricTypeHistogram ->
             ([] : list RefSample) = []
             /\ exists rt v d2 d3,
                  getResetAdjusted (Ref (mkSample 1 1500 (Examples.f64 42)))
                    (T (mkSample 1 1500 (Examples.f64 42)))
                    (V (mkSample 1 1500 (Examples.f64 42))) d2
                  = ((rt, v, true), d3)
                  /\ StartTime (Interval point) = Some (getTimestamp rt)
                  /\ (value = buildTypedValue (valueType (metadata entry)) v
                      \/ value = DoubleValue v
                      \/ value = Int64Value (F64.to_int64 v))).
Proof.
  eexists _, _.
  match goal with
  | |- ?A /\ _ => assert (Hrun : A) by (vm_compute; reflexivity)
  end.
  split; [exact Hrun|].
  exact (next_emitted_point parseLe shortSort
      (mkSample 1 1500 (Examples.f64 42)) []
           Examples.gaugeDir _ _ 11 [] None Hrun).
Defined.

Section NextCalls.
Variable ParseFloat : string -> option float64.
Variable sortSwaps : sorter.
Context {D : Type} `{G : seriesGetter D}.

Lemma adjusted_calls (sample : RefSample) (tailSamples : list RefSample)
    (mk : float64 -> TypedValue) (d : D) :
  calls (adjusted sample tailSamples mk) d
  = [CallGetResetAdjusted (Ref sample) (T sample) (V sample)].
Proof.
  unfold adjusted. rewrite calls_bind. unfold series_getResetAdjusted.
  cbn [run calls].
  destruct (getResetAdjusted _ _ _ d) as [[[rt v] ok] d'].
  now destruct ok.
Qed.

(** The dispatch only reads the directory, and a series that is not
    cumulative makes it call nothing. *)
Lemma dispatch_calls (entry : seriesCacheEntry) (sample : RefSample)
    (tailSamples : list RefSample) (d : D) :
  Forall (fun c => isRead c = true)
    (calls (dispatch ParseFloat sortSwaps entry sample (sample :: tailSamples)
              tailSamples) d)
  /\ (cumulativeSeries entry = false ->
      calls (dispatch ParseFloat sortSwaps entry sample (sample :: tailSamples)
               tailSamples) d = []).
Proof.
  unfold dispatch, cumulativeSeries.
  destruct (metricType (metadata entry)) as [| | | | |name];
    try (split; [constructor | reflexivity]).
  - rewrite adjusted_calls. split; [repeat constructor | discriminate].
  - split; [|discriminate]. rewrite calls_bind.
    replace (match run
        (buildDistribution ParseFloat sortSwaps (Metric (metadata entry))
                          (lset entry) (sample :: tailSamples)) d with
             | (Some a, d') =>
                 calls (let '(v, resetTimestamp, rest, err) := a in
                        match v, err with
                        | Some d0, None =>
                            Ret (Built resetTimestamp
                                   (Some (getTimestamp resetTimestamp))
                                   (DistributionValue d0) rest)
                        | _, _ => Ret (Returns rest err)
                        end) d'
             | (None, _) => []
             end) with (@nil call).
    + rewrite app_nil_r, buildDistribution_calls. apply walk_calls.
    + destruct (run _ d) as [[[[[v rt] rest] err]|] d']; [|reflexivity].
      destruct v, err; reflexivity.
  - destruct (String.eqb (suffix entry) metricSuffixSum);
      [rewrite adjusted_calls; split; [repeat constructor | discriminate]|].
    destruct (String.eqb (suffix entry) metricSuffixCount);
      [rewrite adjusted_calls; split; [repeat constructor | discriminate]|].
    destruct (String.eqb (suffix entry) ""); split; try constructor;
      reflexivity.
Qed.

(** X16. The calls of [next] on a sample that is not a stale marker: first
    the lookup of the first sample, and nothing else when it misses or
    fails. On a hit: the tracker of the entry, if it has one, with the
    labels of the entry and the sample (also for an entry that is not
    exported, and for no other sample); then, for an exported entry only,
    reads of the directory (none for a series that is not cumulative); and
    last, at most once, the interval gate with the hash of the entry and
    the timestamp of the first sample. *)
Theorem next_call_order (sample : RefSample) (tailSamples : list RefSample)
    (d : D) :
  F64.IsNaN (V sample) = false ->
  match fst (get (Ref sample) d) with
  | GetHit entry =>
      exists reads gate,
        calls (next ParseFloat sortSwaps (sample :: tailSamples)) d
        = CallGet (Ref sample)
          :: match tracker entry with
             | Some tr =>
                 [CallNewPoint tr (lset entry) (T sample) (V sample)]
             | None => []
             end
          ++ reads ++ gate
        /\ Forall (fun c => isRead c = true) reads
        /\ (gate = []
            \/ exists rt,
                 gate = [CallUpdateSampleInterval (hash entry) rt (T sample)])
        /\ (exported entry = false -> reads = [] /\ gate = [])
        /\ (cumulativeSeries entry = false -> reads = [])
  | _ => calls (next ParseFloat sortSwaps (sample :: tailSamples)) d
         = [CallGet (Ref sample)]
  end.
Proof.
  intros HNaN. unfold next. rewrite HNaN.
  rewrite calls_bind. unfold series_get. cbn [run calls].
  destruct (get (Ref sample) d) as [r d1]. cbn [fst app].
  destruct r as [e| |entry]; cbv iota beta; try reflexivity.
  rewrite calls_bind.
  assert (Htracker : exists d2,
             run (match tracker entry with
                  | Some tr =>
                      tracker_newPoint tr (lset entry) (T sample) (V sample)
                  | None => Ret tt
                  end) d1 = (Some tt, d2)
             /\ calls (match tracker entry with
                       | Some tr =>
                           tracker_newPoint tr (lset entry) (T sample) (V sample)
                       | None => Ret tt
                       end) d1
                = match tracker entry with
                  | Some tr =>
                      [CallNewPoint tr (lset entry) (T sample) (V sample)]
                  | None => []
                  end).
  { destruct (tracker entry); eexists; split; reflexivity. }
  destruct Htracker as (d2 & -> & ->).
  destruct (exported entry) eqn:Eexp; simpl negb; cbv iota.
  2:{ exists [], []. rewrite !app_nil_r. repeat split; auto. }
  rewrite calls_bind.
  destruct (dispatch_calls entry sample tailSamples d2) as [Hreads Hnone].
  exists (calls
      (dispatch ParseFloat sortSwaps entry sample (sample :: tailSamples)
                   tailSamples) d2).
  destruct (run (dispatch _ _ _ _ _ _) d2) as [[b|] d3];
    [|exists []; repeat split; auto; discriminate].
  destruct b as [rest0 err0|rt startTime value tl];
    [exists []; repeat split; auto; discriminate|].
  rewrite calls_bind. unfold series_updateSampleInterval. cbn [run calls].
  destruct (updateSampleInterval _ _ _ d3) as [ok d4].
  exists [CallUpdateSampleInterval (hash entry) rt (T sample)].
  split; [now destruct ok|]. split; [exact Hreads|].
  split; [right; now exists rt|]. split; [discriminate | exact Hnone].
Qed.
End NextCalls.

Lemma next_call_order_witness :
  F64.IsNaN (V (mkSample 1 1500 (Examples.f64 42))) = false
  /\ calls (next parseLe shortSort Examples.gaugeStream) Examples.gaugeDir
     = [CallGet 1; CallUpdateSampleInterval 11 0 1500]
  /\ match fst (get (Ref (mkSample 1 1500 (Examples.f64 42))) Examples.gaugeDir)
     with
     | GetHit entry =>
         exists reads gate,
           calls (next parseLe shortSort
               (mkSample 1 1500 (Examples.f64 42) :: []))
                 Examples.gaugeDir
           = CallGet (Ref (mkSample 1 1500 (Examples.f64 42)))
             :: match tracker entry with
                | Some tr =>
                    [CallNewPoint tr (lset entry)
                       (T (mkSample 1 1500 (Examples.f64 42)))
                       (V (mkSample 1 1500 (Examples.f64 42)))]
                | None => []
                end
             ++ reads ++ gate
           /\ Forall (fun c => isRead c = true) reads
           /\ (gate = []
               \/ exists rt,
                    gate = [CallUpdateSampleInterval (hash entry) rt
                              (T (mkSample 1 1500 (Examples.f64 42)))])
           /\ (exported entry = false -> reads = [] /\ gate = [])
           /\ (cumulativeSeries entry = false -> reads = [])
     | _ => calls (next parseLe shortSort (mkSample 1 1500 (Examples.f64 42) ::
         []))
                  Examples.gaugeDir
            = [CallGet (Ref (mkSample 1 1500 (Examples.f64 42)))]
     end.
Proof.
  assert (H : F64.IsNaN (V (mkSample 1 1500 (Examples.f64 42))) = false)
    by reflexivity.
  split; [exact H|]. split; [vm_compute; reflexivity|].
  exact (next_call_order parseLe shortSort (mkSample 1 1500 (Examples.f64 42))
      []
           Examples.gaugeDir H).
Defined.
